(** * Multi-channel A/D converter: hysteresis window, running average, accessors

    A shallow embedding of [adc.c] (the multi-channel driver) and the
    properties of its filter pipeline and accessor API.

    Conventions.
    - C unsigned integers are [Z] values; every operation that can wrap in C
      is written with its reduction ([u8], [u32], [u64]).
    - The static array [channel_data] is a [list adc_channel_data_t]; the
      functions that mutate it in C take the list and return the new one.
    - The FreeRTOS mutex is seen through its outcome only: an attempt to take
      it with a budget of [wait] ticks succeeds when the current holder
      releases it within that budget. *)

From Stdlib Require Import ZArith Lia List Bool.
From stdpp Require Import base list.

Local Open Scope Z_scope.

(** ** C integer arithmetic *)

Definition u8 (z : Z) : Z := z mod 2 ^ 8.
Definition u32 (z : Z) : Z := z mod 2 ^ 32.
Definition u64 (z : Z) : Z := z mod 2 ^ 64.

Definition is_u32 (z : Z) : Prop := 0 <= z < 2 ^ 32.

(** Modelled from the spec: [util.h], which defines the macros [MIN] and
    [MAX], is not among the sources; the text calls them min and max, and
    they are taken as the usual conditional expressions. *)
Definition MIN (a b : Z) : Z := if a <? b then a else b.
Definition MAX (a b : Z) : Z := if a >? b then a else b.

(** ** Build-time configuration

    The values [adc.c] takes from Kconfig and from FreeRTOSConfig. *)

Class Kconfig := {
  CONFIG_ADC_MAX_CHANNELS : Z;
  CONFIG_ADC_RUNNING_AVG_SIZE : Z;
  CONFIG_ADC_HYSTERESIS : Z;
  default_mins : list Z;
  default_maxs : list Z;
  configTICK_RATE_HZ : Z
}.

Definition ADC_MIN : Z := 0.
Definition ADC_MAX : Z := Z.shiftl 1 12.

(** ** Data *)

Record r_hyst_t := {
  min : Z;
  max : Z;
  hysteresis : Z
}.

Record r_avg_t := {
  queue : list Z;
  ptr : Z
}.

Record adc_channel_data_t := {
  raw_value : Z;
  normalized_value : Z;
  r_hyst : r_hyst_t;
  r_avg : r_avg_t;
  min_cal : Z;
  max_cal : Z
}.

Definition set_raw_value (c : adc_channel_data_t) (v : Z) :=
  {| raw_value := v; normalized_value := normalized_value c;
     r_hyst := r_hyst c; r_avg := r_avg c;
     min_cal := min_cal c; max_cal := max_cal c |}.

Definition set_normalized_value (c : adc_channel_data_t) (v : Z) :=
  {| raw_value := raw_value c; normalized_value := v;
     r_hyst := r_hyst c; r_avg := r_avg c;
     min_cal := min_cal c; max_cal := max_cal c |}.

Definition set_r_hyst (c : adc_channel_data_t) (h : r_hyst_t) :=
  {| raw_value := raw_value c; normalized_value := normalized_value c;
     r_hyst := h; r_avg := r_avg c;
     min_cal := min_cal c; max_cal := max_cal c |}.

Definition set_r_avg (c : adc_channel_data_t) (a : r_avg_t) :=
  {| raw_value := raw_value c; normalized_value := normalized_value c;
     r_hyst := r_hyst c; r_avg := a;
     min_cal := min_cal c; max_cal := max_cal c |}.

Definition set_cal (c : adc_channel_data_t) (lo hi : Z) :=
  {| raw_value := raw_value c; normalized_value := normalized_value c;
     r_hyst := r_hyst c; r_avg := r_avg c;
     min_cal := lo; max_cal := hi |}.

(** The error statistics of the module. *)
Record errors_t := {
  conversions : Z;
  invalid_channel : Z;
  read_errors : Z;
  timeout : Z
}.

(** [esp_err_t] with the codes of [esp_err.h]. *)
Definition esp_err_t := Z.
Definition ESP_OK : esp_err_t := 0.
Definition ESP_ERR_INVALID_ARG : esp_err_t := 258.
Definition ESP_ERR_TIMEOUT : esp_err_t := 263.

(** What happened to the mutex and to the store, in program order. *)
Inductive event :=
| EvTake (wait : Z) (taken : bool)
| EvGive
| EvSave (channel : Z).

(** The module's static variables. *)
Record adc_t := {
  channel_data : list adc_channel_data_t;
  errors : errors_t;
  trace : list event
}.

Definition set_channel_data (st : adc_t) (cd : list adc_channel_data_t) :=
  {| channel_data := cd; errors := errors st; trace := trace st |}.

Definition set_errors (st : adc_t) (e : errors_t) :=
  {| channel_data := channel_data st; errors := e; trace := trace st |}.

Definition emit (st : adc_t) (e : event) :=
  {| channel_data := channel_data st; errors := errors st;
     trace := trace st ++ [e] |}.

(** An output pointer argument: [NULL] or the address of a caller variable. *)
Inductive pointer := NULL | Addr.

Definition is_null (p : pointer) : bool :=
  match p with NULL => true | Addr => false end.

(** One conversion result of the DMA buffer ([adc_digi_output_data_t],
    format [type1]): a 12-bit reading and the 4-bit input it came from. *)
Record adc_digi_output_data_t := {
  type1_data : Z;
  type1_channel : Z
}.

Section Driver.
Context `{cfg : Kconfig}.

Definition ADC_MAX_CHANNELS : Z := CONFIG_ADC_MAX_CHANNELS.
Definition RUNNING_AVG_SIZE : Z := CONFIG_ADC_RUNNING_AVG_SIZE.

(** [physical_channels]: ADC_CHANNEL_6, 7, 4, 5, 0, 3; entries past the
    initialisers are zero, as in a C array. *)
Definition physical_channels (ch : Z) : Z :=
  nth (Z.to_nat ch) [6; 7; 4; 5; 0; 3] 0.

Definition chk_chn (channel : Z) : bool := channel <? ADC_MAX_CHANNELS.

(** ** The hysteresis window *)

(** The body of [running_hyst] on the record [hyst] points to. *)
Definition running_hyst_at (hyst : r_hyst_t) (lo_cal hi_cal input : Z)
  : r_hyst_t * Z :=
  if (input <=? max hyst) && (input >=? min hyst) then
    (hyst, u32 (min hyst + u32 (max hyst - min hyst) / 2))
  else if input >? max hyst then
    let max' := MIN (u32 (input + hysteresis hyst / 2)) hi_cal in
    let min' := if max' >? hysteresis hyst
                then u32 (max' - hysteresis hyst) else 0 in
    ({| min := min'; max := max'; hysteresis := hysteresis hyst |}, input)
  else
    let min' := MAX (u32 (input - hysteresis hyst / 2)) lo_cal in
    let max' := MIN (u32 (min' + hysteresis hyst)) hi_cal in
    ({| min := min'; max := max'; hysteresis := hysteresis hyst |}, input).

Definition running_hyst (channel input : Z) (cd : list adc_channel_data_t)
  : list adc_channel_data_t * Z :=
  if negb (chk_chn channel) then (cd, input)
  else
    match cd !! Z.to_nat channel with
    | None => (cd, input)
    | Some c =>
        let '(hyst, out) :=
          running_hyst_at (r_hyst c) (min_cal c) (max_cal c) input in
        (<[Z.to_nat channel := set_r_hyst c hyst]> cd, out)
    end.

(** ** The running average *)

(** [for (i = 0; i < RUNNING_AVG_SIZE; i++) sum += avg->queue[i];] with a
    64-bit accumulator. *)
Definition sum_queue (q : list Z) : Z :=
  foldl (fun sum i => u64 (sum + default 0 (q !! i))) 0
        (seq 0 (Z.to_nat RUNNING_AVG_SIZE)).

Definition running_average_at (avg : r_avg_t) (input : Z) : r_avg_t * Z :=
  let q := <[Z.to_nat (ptr avg) := input]> (queue avg) in
  let p := u8 ((ptr avg + 1) mod RUNNING_AVG_SIZE) in
  ({| queue := q; ptr := p |}, u32 (sum_queue q / RUNNING_AVG_SIZE)).

Definition running_average (channel input : Z) (cd : list adc_channel_data_t)
  : list adc_channel_data_t * Z :=
  if negb (chk_chn channel) then (cd, input)
  else
    match cd !! Z.to_nat channel with
    | None => (cd, input)
    | Some c =>
        let '(avg, out) := running_average_at (r_avg c) input in
        (<[Z.to_nat channel := set_r_avg c avg]> cd, out)
    end.

(** ** The mutex and the store, as the driver sees them *)

Definition pdMS_TO_TICKS (ms : Z) : Z := ms * configTICK_RATE_HZ / 1000.

(** [free_after] is the number of ticks after which the holder of the mutex
    releases it ([0] when it is free). *)
Definition xSemaphoreTake (free_after wait : Z) (st : adc_t) : bool * adc_t :=
  let taken := free_after <=? wait in
  (taken, emit st (EvTake wait taken)).

Definition xSemaphoreGive (st : adc_t) : adc_t := emit st EvGive.

(** [nvs_res] stands for what the sequence of NVS calls returns. *)
Definition save_channel_config (channel : Z) (nvs_res : esp_err_t)
  (st : adc_t) : esp_err_t * adc_t :=
  if negb (chk_chn channel) then (ESP_ERR_INVALID_ARG, st)
  else (nvs_res, emit st (EvSave channel)).

(** The keys ["ch%d_min"], ["ch%d_max"], ["ch%d_hyst"]. *)
Inductive nvs_key :=
| NVS_KEY_MIN (channel : Z)
| NVS_KEY_MAX (channel : Z)
| NVS_KEY_HYST (channel : Z).

Definition load_channel_config (channel : Z) (nvs_open : esp_err_t)
  (nvs_get_u32 : nvs_key -> option Z) (cd : list adc_channel_data_t)
  : esp_err_t * list adc_channel_data_t :=
  if negb (chk_chn channel) then (ESP_ERR_INVALID_ARG, cd)
  else if negb (nvs_open =? ESP_OK) then (nvs_open, cd)
  else
    let i := Z.to_nat channel in
    let cd1 := match nvs_get_u32 (NVS_KEY_MIN channel) with
               | Some value => alter (fun c => set_cal c value (max_cal c)) i cd
               | None => cd
               end in
    let cd2 := match nvs_get_u32 (NVS_KEY_MAX channel) with
               | Some value => alter (fun c => set_cal c (min_cal c) value) i cd1
               | None => cd1
               end in
    let cd3 := match nvs_get_u32 (NVS_KEY_HYST channel) with
               | Some value =>
                   alter (fun c => set_r_hyst c
                            {| min := min (r_hyst c); max := max (r_hyst c);
                               hysteresis := value |}) i cd2
               | None => cd2
               end in
    (ESP_OK, cd3).

(** ** The acquisition task *)

(** The scan [for (ch = 0; ch < ADC_MAX_CHANNELS; ch++)] up to its [break]:
    the first logical channel whose physical input is [pch]. *)
Fixpoint find_channel (n : nat) (ch pch : Z) : option Z :=
  match n with
  | O => None
  | S n' =>
      if Z.land (physical_channels ch) 7 =? pch then Some ch
      else find_channel n' (ch + 1) pch
  end.

Definition process_sample (p : adc_digi_output_data_t) (free_after : Z)
  (st : adc_t) : adc_t :=
  match find_channel (Z.to_nat ADC_MAX_CHANNELS) 0 (type1_channel p) with
  | None => st
  | Some ch =>
      let '(taken, st1) := xSemaphoreTake free_after (pdMS_TO_TICKS 10) st in
      if taken then
        let raw := type1_data p in
        let cd1 := alter (fun c => set_raw_value c raw) (Z.to_nat ch)
                         (channel_data st1) in
        let '(cd2, h) := running_hyst ch raw cd1 in
        let '(cd3, a) := running_average ch h cd2 in
        let cd4 := alter (fun c => set_normalized_value c a) (Z.to_nat ch)
                         cd3 in
        xSemaphoreGive (set_channel_data st1 cd4)
      else st1
  end.

(** One wake-up of [task_adc]: [ret] is what [adc_continuous_read] returned,
    [samples] the conversion results it delivered, each with the state of
    the mutex at the moment the task asks for it. *)
Definition task_adc_cycle (ret : esp_err_t)
  (samples : list (adc_digi_output_data_t * Z)) (st : adc_t) : adc_t :=
  let e := errors st in
  if ret =? ESP_OK then
    let st1 := set_errors st
      {| conversions := u32 (conversions e + 1);
         invalid_channel := invalid_channel e;
         read_errors := read_errors e; timeout := timeout e |} in
    foldl (fun s ps => process_sample (fst ps) (snd ps) s) st1 samples
  else if ret =? ESP_ERR_TIMEOUT then
    set_errors st
      {| conversions := conversions e;
         invalid_channel := invalid_channel e;
         read_errors := read_errors e; timeout := u32 (timeout e + 1) |}
  else
    set_errors st
      {| conversions := conversions e;
         invalid_channel := invalid_channel e;
         read_errors := u32 (read_errors e + 1); timeout := timeout e |}.

(** The task loop over a finite run of wake-ups. *)
Definition task_adc
  (cycles : list (esp_err_t * list (adc_digi_output_data_t * Z)))
  (st : adc_t) : adc_t :=
  foldl (fun s c => task_adc_cycle (fst c) (snd c) s) st cycles.

(** ** Initialisation *)

Definition zero_channel : adc_channel_data_t :=
  {| raw_value := 0; normalized_value := 0;
     r_hyst := {| min := 0; max := 0; hysteresis := 0 |};
     r_avg := {| queue := replicate (Z.to_nat RUNNING_AVG_SIZE) 0; ptr := 0 |};
     min_cal := 0; max_cal := 0 |}.

Definition zero_errors : errors_t :=
  {| conversions := 0; invalid_channel := 0; read_errors := 0; timeout := 0 |}.

(** The body of the loop of [adc_init] for channel [ch]. *)
Definition init_channel (nvs_open : esp_err_t)
  (nvs_get_u32 : nvs_key -> option Z) (cd : list adc_channel_data_t)
  (ch : Z) : list adc_channel_data_t :=
  let lo := default 0 (default_mins !! Z.to_nat ch) in
  let hi := default 0 (default_maxs !! Z.to_nat ch) in
  let c := set_r_hyst (set_cal zero_channel lo hi)
             {| min := lo; max := u32 (lo + CONFIG_ADC_HYSTERESIS);
                hysteresis := CONFIG_ADC_HYSTERESIS |} in
  snd (load_channel_config ch nvs_open nvs_get_u32 (<[Z.to_nat ch := c]> cd)).

(** [adc_init] when the mutex is created; the state it leaves. *)
Definition adc_init (nvs_open : esp_err_t)
  (nvs_get_u32 : nvs_key -> option Z) : adc_t :=
  let n := Z.to_nat ADC_MAX_CHANNELS in
  {| channel_data :=
       foldl (init_channel nvs_open nvs_get_u32)
             (replicate n zero_channel) (Z.of_nat <$> seq 0 n);
     errors := zero_errors;
     trace := [] |}.

(** ** The accessor API *)

Definition channel_at (cd : list adc_channel_data_t) (channel : Z)
  : adc_channel_data_t :=
  default zero_channel (cd !! Z.to_nat channel).

Definition adc_get_normalized (channel : Z) (v : pointer) (wait : Z)
  (free_after : Z) (st : adc_t) : esp_err_t * option Z * adc_t :=
  if negb (chk_chn channel) || is_null v then (ESP_ERR_INVALID_ARG, None, st)
  else
    let '(taken, st1) := xSemaphoreTake free_after wait st in
    if negb taken then (ESP_ERR_TIMEOUT, None, st1)
    else
      let out := normalized_value (channel_at (channel_data st1) channel) in
      (ESP_OK, Some out, xSemaphoreGive st1).

Definition adc_get_raw (channel : Z) (v : pointer) (wait : Z)
  (free_after : Z) (st : adc_t) : esp_err_t * option Z * adc_t :=
  if negb (chk_chn channel) || is_null v then (ESP_ERR_INVALID_ARG, None, st)
  else
    let '(taken, st1) := xSemaphoreTake free_after wait st in
    if negb taken then (ESP_ERR_TIMEOUT, None, st1)
    else
      let out := raw_value (channel_at (channel_data st1) channel) in
      (ESP_OK, Some out, xSemaphoreGive st1).

Definition adc_set_calibration (channel min max : Z) (free_after : Z)
  (nvs_res : esp_err_t) (st : adc_t) : esp_err_t * adc_t :=
  if negb (chk_chn channel) || (min >=? max) || (max >? ADC_MAX)
  then (ESP_ERR_INVALID_ARG, st)
  else
    let '(taken, st1) := xSemaphoreTake free_after (pdMS_TO_TICKS 100) st in
    if negb taken then (ESP_ERR_TIMEOUT, st1)
    else
      let cd := alter
        (fun c => set_r_hyst (set_cal c min max)
           {| min := min;
              max := MIN (u32 (min + hysteresis (r_hyst c))) max;
              hysteresis := hysteresis (r_hyst c) |})
        (Z.to_nat channel) (channel_data st1) in
      save_channel_config channel nvs_res
        (xSemaphoreGive (set_channel_data st1 cd)).

Definition adc_get_calibration (channel : Z) (min max : pointer)
  (free_after : Z) (st : adc_t) : esp_err_t * option (Z * Z) * adc_t :=
  if negb (chk_chn channel) || is_null min || is_null max
  then (ESP_ERR_INVALID_ARG, None, st)
  else
    let '(taken, st1) := xSemaphoreTake free_after (pdMS_TO_TICKS 100) st in
    if negb taken then (ESP_ERR_TIMEOUT, None, st1)
    else
      let c := channel_at (channel_data st1) channel in
      (ESP_OK, Some (min_cal c, max_cal c), xSemaphoreGive st1).

Definition adc_set_hysteresis (channel hysteresis : Z) (free_after : Z)
  (nvs_res : esp_err_t) (st : adc_t) : esp_err_t * adc_t :=
  if negb (chk_chn channel) || (hysteresis =? 0) || (hysteresis >? 1000)
  then (ESP_ERR_INVALID_ARG, st)
  else
    let '(taken, st1) := xSemaphoreTake free_after (pdMS_TO_TICKS 100) st in
    if negb taken then (ESP_ERR_TIMEOUT, st1)
    else
      let cd := alter
        (fun c => set_r_hyst c
           {| min := (r_hyst c).(min); max := (r_hyst c).(max);
              hysteresis := hysteresis |})
        (Z.to_nat channel) (channel_data st1) in
      save_channel_config channel nvs_res
        (xSemaphoreGive (set_channel_data st1 cd)).

Definition adc_get_hysteresis (channel : Z) (hysteresis : pointer)
  (free_after : Z) (st : adc_t) : esp_err_t * option Z * adc_t :=
  if negb (chk_chn channel) || is_null hysteresis
  then (ESP_ERR_INVALID_ARG, None, st)
  else
    let '(taken, st1) := xSemaphoreTake free_after (pdMS_TO_TICKS 100) st in
    if negb taken then (ESP_ERR_TIMEOUT, None, st1)
    else
      let '{| hysteresis := value |} :=
        r_hyst (channel_at (channel_data st1) channel) in
      (ESP_OK, Some value, xSemaphoreGive st1).

End Driver.

(** ** Vocabulary of the properties *)

(** The truncated arithmetic mean of the slots of a buffer. *)
Definition Zsum (l : list Z) : Z := foldr Z.add 0 l.
Definition mean (l : list Z) : Z := Zsum l / Z.of_nat (length l).

(** The least and the greatest value present in a buffer. *)
Definition queue_min (l : list Z) : Z := foldr Z.min (hd 0 l) l.
Definition queue_max (l : list Z) : Z := foldr Z.max (hd 0 l) l.

(** The fields of a channel record hold 32-bit values. *)
Definition hyst_u32 (h : r_hyst_t) : Prop :=
  is_u32 (min h) /\ is_u32 (max h) /\ is_u32 (hysteresis h).

(** The reference configuration: four channels, ten slots, width 40,
    calibration [0, 4095], a 100 Hz tick. *)
#[local] Instance sdkconfig : Kconfig := {|
  CONFIG_ADC_MAX_CHANNELS := 4;
  CONFIG_ADC_RUNNING_AVG_SIZE := 10;
  CONFIG_ADC_HYSTERESIS := 40;
  default_mins := [0; 0; 0; 0];
  default_maxs := [4095; 4095; 4095; 4095];
  configTICK_RATE_HZ := 100
|}.

(** An empty store, and a conversion result that finds the mutex free. *)
Definition nvs_empty : nvs_key -> option Z := fun _ => None.

Definition sample (input data : Z) : adc_digi_output_data_t * Z :=
  ({| type1_data := data; type1_channel := input |}, 0).

(** A channel record with the given window, width and calibration, and a
    zero-filled buffer of [k] slots. *)
Definition channel_with (lo hi width lo_cal hi_cal : Z) (k : nat)
  : adc_channel_data_t :=
  {| raw_value := 0; normalized_value := 0;
     r_hyst := {| min := lo; max := hi; hysteresis := width |};
     r_avg := {| queue := replicate k 0; ptr := 0 |};
     min_cal := lo_cal; max_cal := hi_cal |}.

(** The averaging state of a channel is well formed: [RUNNING_AVG_SIZE]
    slots of 32 bits each and a cursor inside the buffer. *)
Definition avg_wf `{Kconfig} (avg : r_avg_t) : Prop :=
  length (queue avg) = Z.to_nat RUNNING_AVG_SIZE /\
  0 <= ptr avg < RUNNING_AVG_SIZE /\
  Forall is_u32 (queue avg).

(** The window sits where [adc_set_calibration] and the slides of
    [running_hyst] put it: its lower edge inside the calibration range, its
    upper edge one width above, cut at the calibration maximum. *)
Definition window_placed (h : r_hyst_t) (lo hi : Z) : Prop :=
  lo <= min h <= hi /\
  max h = Z.min (min h + hysteresis h) hi /\
  (min h = lo \/ lo + hysteresis h <= hi).

(** The window after the subtraction of the downward slide has borrowed:
    its lower edge is near [2 ^ 32], above every reading. *)
Definition window_borrowed (h : r_hyst_t) (lo hi : Z) : Prop :=
  lo + hysteresis h <= hi /\
  hi < min h < 2 ^ 32 /\
  lo + (hysteresis h - hysteresis h / 2) <= max h <= hi.

(** The midpoint of the window an upward slide leaves once it has moved the
    upper edge to [top]: the lower edge is one width under it, or 0. *)
Definition slid_midpoint (width top : Z) : Z :=
  let bottom := if top >? width then top - width else 0 in
  bottom + (top - bottom) / 2.

(** Where the smallest reading above the window moves the upper edge. *)
Definition next_top (h : r_hyst_t) (hi : Z) : Z :=
  Z.min (max h + 1 + hysteresis h / 2) hi.

(** The window lies inside the calibration range. *)
Definition window_inside (h : r_hyst_t) (lo hi : Z) : Prop :=
  lo <= min h /\ min h <= max h /\ max h <= hi.

(** In a calibration range narrower than the width an upward slide puts the
    lower edge under the calibration minimum; the window then holds its
    midpoint, which has to stay inside the range. No upward slide happens
    when the upper edge is at the calibration maximum. *)
Definition upward_safe (h : r_hyst_t) (lo hi : Z) : Prop :=
  max h = hi \/ lo <= slid_midpoint (hysteresis h) (next_top h hi).

(** The states of the window from which readings inside the calibration
    range are answered inside it, now and after any number of slides. The
    upper edge lies inside the range; when the range is narrower than the
    width, upward slides are safe; the midpoint is not under the calibration
    minimum, or the lower edge has borrowed and is above every reading. *)
Definition window_safe (h : r_hyst_t) (lo hi : Z) : Prop :=
  lo <= max h <= hi /\
  (lo + hysteresis h <= hi \/ upward_safe h lo hi) /\
  ((0 <= min h <= max h /\ lo <= min h + (max h - min h) / 2) \/
   hi < min h < 2 ^ 32).

(** The ranges the accessor API enforces on calibration and width. *)
Definition calibrated (c : adc_channel_data_t) : Prop :=
  0 <= min_cal c < max_cal c /\ max_cal c <= ADC_MAX /\
  1 <= hysteresis (r_hyst c) <= 1000.

Definition within_cal (c : adc_channel_data_t) (v : Z) : Prop :=
  min_cal c <= v <= max_cal c.

(** What the critical section of [task_adc] does to the record of the
    channel a reading belongs to. *)
Definition sample_update `{Kconfig} (c : adc_channel_data_t) (raw : Z)
  : adc_channel_data_t :=
  let hy := running_hyst_at (r_hyst c) (min_cal c) (max_cal c) raw in
  let av := running_average_at (r_avg c) (snd hy) in
  {| raw_value := raw; normalized_value := snd av;
     r_hyst := fst hy; r_avg := fst av;
     min_cal := min_cal c; max_cal := max_cal c |}.

(** A conversion result belongs to the logical channel the scan of
    [task_adc] stops at. *)
Definition addressed_to `{Kconfig} (channel : Z) (p : adc_digi_output_data_t)
  : Prop :=
  find_channel (Z.to_nat ADC_MAX_CHANNELS) 0 (type1_channel p) = Some channel.

(** The state of a channel from which readings inside the calibration range
    keep the filtered value inside it. *)
Definition channel_inv `{Kconfig} (c : adc_channel_data_t) : Prop :=
  calibrated c /\
  window_safe (r_hyst c) (min_cal c) (max_cal c) /\
  length (queue (r_avg c)) = Z.to_nat RUNNING_AVG_SIZE /\
  0 <= ptr (r_avg c) < RUNNING_AVG_SIZE /\
  Forall (within_cal c) (queue (r_avg c)) /\
  within_cal c (normalized_value c).

(** Every reading of a run of the task that belongs to [channel] lies
    between [lo] and [hi]. *)
Definition readings_within `{Kconfig} (channel lo hi : Z)
  (cycles : list (esp_err_t * list (adc_digi_output_data_t * Z))) : Prop :=
  Forall (fun cyc =>
    Forall (fun ps => addressed_to channel (fst ps) ->
                      lo <= type1_data (fst ps) <= hi) (snd cyc)) cycles.

(** The operations of the accessor API, and a call of one of them by a
    caller that is ready to wait [wait] ticks for the mutex. Four of the six
    C functions have no parameter to receive that budget. *)
Inductive accessor :=
| Get_raw
| Get_normalized
| Get_calibration
| Get_hysteresis
| Set_calibration (lo hi : Z)
| Set_hysteresis (width : Z).

Definition accessor_call `{Kconfig} (op : accessor) (channel wait : Z)
  (free_after : Z) (nvs_res : esp_err_t) (st : adc_t) : esp_err_t :=
  match op with
  | Get_raw => fst (fst (adc_get_raw channel Addr wait free_after st))
  | Get_normalized =>
      fst (fst (adc_get_normalized channel Addr wait free_after st))
  | Get_calibration =>
      fst (fst (adc_get_calibration channel Addr Addr free_after st))
  | Get_hysteresis =>
      fst (fst (adc_get_hysteresis channel Addr free_after st))
  | Set_calibration lo hi =>
      fst (adc_set_calibration channel lo hi free_after nvs_res st)
  | Set_hysteresis width =>
      fst (adc_set_hysteresis channel width free_after nvs_res st)
  end.

(** The arguments of a call pass validation. *)
Definition accepted `{Kconfig} (op : accessor) (channel : Z) : Prop :=
  0 <= channel < ADC_MAX_CHANNELS /\
  match op with
  | Set_calibration lo hi => lo < hi <= ADC_MAX
  | Set_hysteresis width => 1 <= width <= 1000
  | _ => True
  end.

(** The number of ticks an operation really waits for the mutex. *)
Definition lock_budget `{Kconfig} (op : accessor) (wait : Z) : Z :=
  match op with
  | Get_raw | Get_normalized => wait
  | _ => pdMS_TO_TICKS 100
  end.

(** The filtered value stays inside the calibration range as soon as the
    window starts inside it with a positive width, whatever the readings. *)
Definition filtered_within_calibration_always `{Kconfig} : Prop :=
  forall (st : adc_t) (channel : Z) (c : adc_channel_data_t)
         (cycles : list (esp_err_t * list (adc_digi_output_data_t * Z)))
         (wait free_after v : Z),
    0 <= channel < ADC_MAX_CHANNELS ->
    channel_data st !! Z.to_nat channel = Some c ->
    min_cal c <= min (r_hyst c) ->
    min (r_hyst c) <= max (r_hyst c) ->
    max (r_hyst c) <= max_cal c ->
    0 < hysteresis (r_hyst c) ->
    fst (adc_get_normalized channel Addr wait free_after (task_adc cycles st))
      = (ESP_OK, Some v) ->
    min_cal c <= v <= max_cal c.

(** Every operation gives up with a timeout once the caller's own budget
    is exhausted. *)
Definition caller_budget_honoured `{Kconfig} : Prop :=
  forall (op : accessor) (channel wait free_after : Z) (nvs_res : esp_err_t)
         (st : adc_t),
    accepted op channel -> 0 <= wait -> wait < free_after ->
    accessor_call op channel wait free_after nvs_res st = ESP_ERR_TIMEOUT.

(** The state after start-up with an empty store. *)
Definition started : adc_t := adc_init ESP_OK nvs_empty.

(** Closes goals about concrete states by evaluation. *)
Ltac ground :=
  repeat match goal with
         | |- _ /\ _ => split
         | |- Forall _ _ => constructor
         | |- _ => progress hnf
         end;
  try reflexivity; try (vm_compute; intuition congruence).

(** ** The store behind [save_channel_config]

    [save_channel_config] above keeps the status of the NVS calls only.
    Here the store is a map from keys to values, the one [nvs_get_u32]
    reads in [load_channel_config]. Modelled from the spec: the NVS API is
    not among the sources; a successful [nvs_set_u32] binds the key to the
    value, and a failing call binds nothing. *)

Definition nvs_key_eqb (a b : nvs_key) : bool :=
  match a, b with
  | NVS_KEY_MIN x, NVS_KEY_MIN y => x =? y
  | NVS_KEY_MAX x, NVS_KEY_MAX y => x =? y
  | NVS_KEY_HYST x, NVS_KEY_HYST y => x =? y
  | _, _ => false
  end.

Definition nvs_set_u32 (store : nvs_key -> option Z) (key : nvs_key)
  (value : Z) : nvs_key -> option Z :=
  fun k => if nvs_key_eqb key k then Some value else store k.

(** [set_res] is the status of [nvs_set_u32] for each key, [commit_res]
    that of [nvs_commit]; every path leaves through [cleanup]. *)
Definition save_channel_config_nvs `{Kconfig} (channel : Z)
  (nvs_open : esp_err_t) (set_res : nvs_key -> esp_err_t)
  (commit_res : esp_err_t) (cd : list adc_channel_data_t)
  (store : nvs_key -> option Z) : esp_err_t * (nvs_key -> option Z) :=
  if negb (chk_chn channel) then (ESP_ERR_INVALID_ARG, store)
  else if negb (nvs_open =? ESP_OK) then (nvs_open, store)
  else
    let c := channel_at cd channel in
    if negb (set_res (NVS_KEY_MIN channel) =? ESP_OK)
    then (set_res (NVS_KEY_MIN channel), store)
    else
      let s1 := nvs_set_u32 store (NVS_KEY_MIN channel) (min_cal c) in
      if negb (set_res (NVS_KEY_MAX channel) =? ESP_OK)
      then (set_res (NVS_KEY_MAX channel), s1)
      else
        let s2 := nvs_set_u32 s1 (NVS_KEY_MAX channel) (max_cal c) in
        if negb (set_res (NVS_KEY_HYST channel) =? ESP_OK)
        then (set_res (NVS_KEY_HYST channel), s2)
        else
          let s3 := nvs_set_u32 s2 (NVS_KEY_HYST channel)
                      (hysteresis (r_hyst c)) in
          (commit_res, s3).

(** ** The command line

    [arg_parse] has filled [args]: a literal option by its count, an
    integer option by its first value when it was given. What the command
    prints is kept as one item per message, with the values it formats. *)

Record args_t := {
  args_help : Z;
  args_channel : option Z;
  args_min : option Z;
  args_max : option Z;
  args_hyst : option Z;
  args_status : Z;
  args_calibrate : Z;
  args_errors_flag : Z
}.

Inductive message :=
| MsgHelp
| MsgInvalidChannel (channel : Z)
| MsgFailedRaw (channel : Z)
| MsgFailedNormalized (channel : Z)
| MsgFailedCalibration (channel : Z)
| MsgFailedHysteresis (channel : Z)
| MsgChannel (channel raw norm lo hi hyst : Z)
| MsgErrors (e : errors_t)
| MsgChannelRequired
| MsgCalibrationSet (channel lo hi : Z)
| MsgCalibrationFailed (err : esp_err_t)
| MsgHysteresisSet (channel hyst : Z)
| MsgHysteresisFailed (err : esp_err_t).

(** The surroundings of a command: for an attempt on the mutex or a save
    made when the trace has [n] events, the ticks after which the mutex is
    free and the status of the NVS calls. *)
Record env_t := {
  lock_free_after : nat -> Z;
  nvs_status : nat -> esp_err_t
}.

Definition free_now (env : env_t) (st : adc_t) : Z :=
  lock_free_after env (length (trace st)).

Definition nvs_now (env : env_t) (st : adc_t) : esp_err_t :=
  nvs_status env (length (trace st)).

Definition print_channel_status `{Kconfig} (env : env_t) (channel : Z)
  (st : adc_t) : list message * adc_t :=
  if negb (chk_chn channel) then ([MsgInvalidChannel channel], st)
  else
    let '(e1, raw, st1) :=
      adc_get_raw channel Addr (pdMS_TO_TICKS 100) (free_now env st) st in
    if negb (e1 =? ESP_OK) then ([MsgFailedRaw channel], st1)
    else
      let '(e2, norm, st2) :=
        adc_get_normalized channel Addr (pdMS_TO_TICKS 100)
          (free_now env st1) st1 in
      if negb (e2 =? ESP_OK) then ([MsgFailedNormalized channel], st2)
      else
        let '(e3, cal, st3) :=
          adc_get_calibration channel Addr Addr (free_now env st2) st2 in
        if negb (e3 =? ESP_OK) then ([MsgFailedCalibration channel], st3)
        else
          let '(e4, hyst, st4) :=
            adc_get_hysteresis channel Addr (free_now env st3) st3 in
          if negb (e4 =? ESP_OK) then ([MsgFailedHysteresis channel], st4)
          else
            ([MsgChannel channel (default 0 raw) (default 0 norm)
                (fst (default (0, 0) cal)) (snd (default (0, 0) cal))
                (default 0 hyst)], st4).

Definition print_errors (st : adc_t) : list message := [MsgErrors (errors st)].

(** [nerrors] is what [arg_parse] returned. The channel is narrowed to
    [uint8_t], the calibration values and the width are converted to
    [uint32_t], as the calls of the source do. *)
Definition cmd_adc `{Kconfig} (env : env_t) (nerrors : Z) (args : args_t)
  (st : adc_t) : list message * Z * adc_t :=
  if negb (nerrors =? 0) || (args_help args >? 0) then ([MsgHelp], 0, st)
  else if args_status args >? 0 then
    match args_channel args with
    | Some c =>
        let '(out, st1) := print_channel_status env (u8 c) st in
        (out, 0, st1)
    | None =>
        let '(out, st1) :=
          foldl (fun acc ch =>
                   let '(out1, st1) :=
                     print_channel_status env (Z.of_nat ch) (snd acc) in
                   (fst acc ++ out1, st1))
                ([], st) (seq 0 (Z.to_nat ADC_MAX_CHANNELS)) in
        (out, 0, st1)
    end
  else if args_errors_flag args >? 0 then (print_errors st, 0, st)
  else if args_calibrate args >? 0 then
    match args_channel args with
    | None => ([MsgChannelRequired], 1, st)
    | Some c =>
        let ch := u8 c in
        let '(out1, failed, st1) :=
          match args_min args, args_max args with
          | Some lo, Some hi =>
              let '(err, st1) :=
                adc_set_calibration ch (u32 lo) (u32 hi) (free_now env st)
                  (nvs_now env st) st in
              if err =? ESP_OK then ([MsgCalibrationSet ch lo hi], false, st1)
              else ([MsgCalibrationFailed err], true, st1)
          | _, _ => ([], false, st)
          end in
        if failed then (out1, 1, st1)
        else
          match args_hyst args with
          | Some h =>
              let '(err, st2) :=
                adc_set_hysteresis ch (u32 h) (free_now env st1)
                  (nvs_now env st1) st1 in
              if err =? ESP_OK then (out1 ++ [MsgHysteresisSet ch h], 0, st2)
              else (out1 ++ [MsgHysteresisFailed err], 1, st2)
          | None => (out1, 0, st1)
          end
    end
  else ([MsgHelp], 0, st).

(** ** Vocabulary of the further properties *)

(** The slots of a buffer in the order they were written, oldest first:
    from the cursor to the end, then from the start to the cursor. *)
Definition window_of (avg : r_avg_t) : list Z :=
  drop (Z.to_nat (ptr avg)) (queue avg) ++
  take (Z.to_nat (ptr avg)) (queue avg).

(** Successive calls of [running_average] on one channel; the value of the
    last call is kept. *)
Definition feed_average `{Kconfig} (channel : Z) (inputs : list Z)
  (cd : list adc_channel_data_t) : list adc_channel_data_t * Z :=
  foldl (fun acc y => running_average channel y (fst acc)) (cd, 0) inputs.

(** What one attempt on the mutex with a budget of [wait] ticks leaves in
    the trace when the holder releases it after [free_after] ticks: the take
    and, at once, its give, followed by the events [after] of what the
    operation does with the mutex released; or the failed take alone. *)
Definition critical_section (free_after wait : Z) (after : list event)
  : list event :=
  if free_after <=? wait then EvTake wait true :: EvGive :: after
  else [EvTake wait false].

(** What an accessor leaves in the trace: nothing when it rejects its
    arguments, its critical section otherwise. *)
Definition accessor_events (rejected : bool) (free_after wait : Z)
  (after : list event) : list event :=
  if rejected then [] else critical_section free_after wait after.

(** What [task_adc] leaves in the trace for one conversion result: nothing
    when the scan finds no channel for it, a critical section with a budget
    of 10 ms otherwise. *)
Definition sample_events `{Kconfig} (ps : adc_digi_output_data_t * Z)
  : list event :=
  match find_channel (Z.to_nat ADC_MAX_CHANNELS) 0 (type1_channel (fst ps)) with
  | Some _ => critical_section (snd ps) (pdMS_TO_TICKS 10) []
  | None => []
  end.

(** The conversion results are looked at only when the read returned
    [ESP_OK]. *)
Definition cycle_events `{Kconfig}
  (cyc : esp_err_t * list (adc_digi_output_data_t * Z)) : list event :=
  if fst cyc =? ESP_OK then flat_map sample_events (snd cyc) else [].

Definition task_events `{Kconfig}
  (cycles : list (esp_err_t * list (adc_digi_output_data_t * Z)))
  : list event :=
  flat_map cycle_events cycles.

(** The number of wake-ups of a run on which [adc_continuous_read]
    returned a status that satisfies [f]. *)
Definition count_cycles (f : esp_err_t -> bool)
  (cycles : list (esp_err_t * list (adc_digi_output_data_t * Z))) : Z :=
  Z.of_nat (length (filter (fun c => f (fst c) = true) cycles)).

(** The record [adc_init] leaves for channel [ch]: the defaults, with the
    calibration and the width replaced by what the store holds. *)
Definition init_record `{Kconfig} (nvs_open : esp_err_t)
  (nvs_get_u32 : nvs_key -> option Z) (ch : Z) : adc_channel_data_t :=
  let lo := default 0 (default_mins !! Z.to_nat ch) in
  let hi := default 0 (default_maxs !! Z.to_nat ch) in
  let stored key fallback :=
    if nvs_open =? ESP_OK then default fallback (nvs_get_u32 key)
    else fallback in
  {| raw_value := 0; normalized_value := 0;
     r_hyst := {| min := lo; max := u32 (lo + CONFIG_ADC_HYSTERESIS);
                  hysteresis := stored (NVS_KEY_HYST ch) CONFIG_ADC_HYSTERESIS |};
     r_avg := {| queue := replicate (Z.to_nat RUNNING_AVG_SIZE) 0; ptr := 0 |};
     min_cal := stored (NVS_KEY_MIN ch) lo;
     max_cal := stored (NVS_KEY_MAX ch) hi |}.

(** Between two states, nothing happened but at most one attempt on the
    mutex, released at once if it succeeded: the channel records and the
    counters are the same. *)
Definition lock_only (st st' : adc_t) : Prop :=
  channel_data st' = channel_data st /\
  errors st' = errors st /\
  (trace st' = trace st \/
   exists wait,
     trace st' = trace st ++ [EvTake wait false] \/
     trace st' = trace st ++ [EvTake wait true; EvGive]).

(** ** Arithmetic *)

Lemma pow2_32 : 2 ^ 32 = 4294967296.
Proof. reflexivity. Qed.

Lemma u32_small z : is_u32 z -> u32 z = z.
Proof. intros Hz. apply Z.mod_small. exact Hz. Qed.

(** An unsigned subtraction below zero wraps to the top of the range. *)
Lemma u32_borrow a b :
  0 <= a -> a < b -> b <= 2 ^ 32 -> u32 (a - b) = a - b + 2 ^ 32.
Proof.
  intros Ha Hab Hb. unfold u32.
  replace (a - b) with ((a - b + 2 ^ 32) + (-1) * 2 ^ 32) by ring.
  rewrite Z.mod_add by (rewrite pow2_32; discriminate).
  rewrite Z.mod_small; [ring | lia].
Qed.

Lemma MIN_min a b : MIN a b = Z.min a b.
Proof. unfold MIN. destruct (Z.ltb_spec a b); lia. Qed.

Lemma MAX_max a b : MAX a b = Z.max a b.
Proof. unfold MAX. rewrite Z.gtb_ltb. destruct (Z.ltb_spec b a); lia. Qed.

Lemma half_u32 w : is_u32 w -> 0 <= w / 2 < 2 ^ 31.
Proof.
  unfold is_u32. rewrite pow2_32. intros Hw. split.
  - apply Z.div_pos; lia.
  - apply Z.div_lt_upper_bound; [lia | ]. change (2 * 2 ^ 31) with 4294967296. lia.
Qed.

(** ** The three cases of the hysteresis window *)

Section Hysteresis.
Context `{cfg : Kconfig}.

Lemma running_hyst_at_hold h lo_cal hi_cal x :
  is_u32 (min h) -> is_u32 (max h) -> min h <= x <= max h ->
  running_hyst_at h lo_cal hi_cal x = (h, min h + (max h - min h) / 2).
Proof.
  intros Hlo Hhi Hx. unfold running_hyst_at.
  assert (Hin : (x <=? max h) && (x >=? min h) = true).
  { apply andb_true_iff. split; [apply Z.leb_le | rewrite Z.geb_leb; apply Z.leb_le]; lia. }
  rewrite Hin. f_equal.
  assert (Hd : is_u32 (max h - min h)) by (unfold is_u32 in *; lia).
  rewrite (u32_small _ Hd).
  assert (Hq : 0 <= (max h - min h) / 2 <= max h - min h).
  { split; [apply Z.div_pos; unfold is_u32 in *; lia | ].
    apply Z.div_le_upper_bound; unfold is_u32 in *; lia. }
  apply u32_small. unfold is_u32 in *. lia.
Qed.

Lemma running_hyst_at_up h lo_cal hi_cal x :
  is_u32 (hysteresis h) -> is_u32 hi_cal ->
  0 <= x -> x + hysteresis h / 2 < 2 ^ 32 -> max h < x ->
  running_hyst_at h lo_cal hi_cal x =
    (let top := Z.min (x + hysteresis h / 2) hi_cal in
     {| min := if top >? hysteresis h then top - hysteresis h else 0;
        max := top; hysteresis := hysteresis h |}, x).
Proof.
  intros Hw Hhi Hx0 Hsum Hx. unfold running_hyst_at.
  assert (Hout : (x <=? max h) && (x >=? min h) = false).
  { apply andb_false_iff. left. apply Z.leb_gt. lia. }
  rewrite Hout.
  assert (Hgt : (x >? max h) = true) by (rewrite Z.gtb_ltb; apply Z.ltb_lt; lia).
  rewrite Hgt. cbv zeta.
  pose proof (half_u32 _ Hw) as Hh.
  rewrite (u32_small (x + hysteresis h / 2)) by (unfold is_u32; lia).
  rewrite MIN_min. f_equal. f_equal.
  destruct (Z.min (x + hysteresis h / 2) hi_cal >? hysteresis h) eqn:Hc; [ | reflexivity].
  rewrite Z.gtb_ltb in Hc. apply Z.ltb_lt in Hc.
  apply u32_small. unfold is_u32 in *. lia.
Qed.

(** Below the window, for an input of at least half the width: the
    subtraction does not borrow. *)
Lemma running_hyst_at_down h lo_cal hi_cal x :
  is_u32 (hysteresis h) -> is_u32 lo_cal -> is_u32 (min h) ->
  hysteresis h / 2 <= x -> x < min h -> x <= max h ->
  Z.max (x - hysteresis h / 2) lo_cal + hysteresis h < 2 ^ 32 ->
  running_hyst_at h lo_cal hi_cal x =
    (let bottom := Z.max (x - hysteresis h / 2) lo_cal in
     {| min := bottom; max := Z.min (bottom + hysteresis h) hi_cal;
        hysteresis := hysteresis h |}, x).
Proof.
  intros Hw Hlo Hmin Hhalf Hx Hwin Hsum. unfold running_hyst_at.
  assert (Hout : (x <=? max h) && (x >=? min h) = false).
  { apply andb_false_iff. right. rewrite Z.geb_leb. apply Z.leb_gt. lia. }
  rewrite Hout.
  assert (Hgt : (x >? max h) = false) by (rewrite Z.gtb_ltb; apply Z.ltb_ge; lia).
  rewrite Hgt. cbv zeta. clear Hout Hgt.
  pose proof (half_u32 _ Hw) as Hh.
  rewrite (u32_small (x - hysteresis h / 2)) by (unfold is_u32 in *; lia).
  rewrite MAX_max, MIN_min.
  rewrite (u32_small (Z.max _ _ + _)) by (unfold is_u32 in *; lia).
  reflexivity.
Qed.

(** Below the window, for an input under half the width: [input -
    hysteresis / 2] borrows, and the new lower edge is the wrapped value. *)
Lemma running_hyst_at_down_borrow h lo_cal hi_cal x :
  is_u32 (hysteresis h) ->
  0 <= x -> x < hysteresis h / 2 -> x < min h -> x <= max h ->
  lo_cal <= 2 ^ 31 ->
  running_hyst_at h lo_cal hi_cal x =
    ({| min := 2 ^ 32 + x - hysteresis h / 2;
        max := Z.min (x + (hysteresis h - hysteresis h / 2)) hi_cal;
        hysteresis := hysteresis h |}, x).
Proof.
  intros Hw Hx0 Hhalf Hx Hwin Hlo. unfold running_hyst_at.
  assert (Hout : (x <=? max h) && (x >=? min h) = false).
  { apply andb_false_iff. right. rewrite Z.geb_leb. apply Z.leb_gt. lia. }
  rewrite Hout.
  assert (Hgt : (x >? max h) = false) by (rewrite Z.gtb_ltb; apply Z.ltb_ge; lia).
  rewrite Hgt. cbv zeta.
  pose proof (half_u32 _ Hw) as Hh.
  assert (H31 : 2 ^ 32 = 2 * 2 ^ 31) by reflexivity.
  rewrite (u32_borrow x (hysteresis h / 2)) by lia.
  rewrite MAX_max, MIN_min.
  assert (Hm : Z.max (x - hysteresis h / 2 + 2 ^ 32) lo_cal
               = 2 ^ 32 + x - hysteresis h / 2) by lia.
  rewrite Hm.
  assert (Hwrap : u32 (2 ^ 32 + x - hysteresis h / 2 + hysteresis h)
                  = x + (hysteresis h - hysteresis h / 2)).
  { unfold u32.
    replace (2 ^ 32 + x - hysteresis h / 2 + hysteresis h)
      with ((x + (hysteresis h - hysteresis h / 2)) + 1 * 2 ^ 32) by ring.
    rewrite Z.mod_add by (rewrite pow2_32; discriminate).
    apply Z.mod_small. unfold is_u32 in Hw.
    Z.to_euclidean_division_equations. lia. }
  rewrite Hwrap. reflexivity.
Qed.

(** [running_hyst] on a valid channel: the record the pointer designates is
    read, filtered and written back. *)
Lemma running_hyst_valid channel x cd c :
  0 <= channel < ADC_MAX_CHANNELS ->
  cd !! Z.to_nat channel = Some c ->
  running_hyst channel x cd =
    (<[Z.to_nat channel :=
         set_r_hyst c (fst (running_hyst_at (r_hyst c) (min_cal c) (max_cal c) x))]> cd,
     snd (running_hyst_at (r_hyst c) (min_cal c) (max_cal c) x)).
Proof.
  intros Hch Hc. unfold running_hyst, chk_chn.
  assert (Hlt : (channel <? ADC_MAX_CHANNELS) = true) by (apply Z.ltb_lt; lia).
  rewrite Hlt, Hc. simpl.
  destruct (running_hyst_at _ _ _ _). reflexivity.
Qed.

Lemma set_r_hyst_same c : set_r_hyst c (r_hyst c) = c.
Proof. destruct c. reflexivity. Qed.

End Hysteresis.

(** ** The running average *)

Lemma Zsum_bounds lo hi (q : list Z) :
  Forall (fun v => lo <= v <= hi) q ->
  lo * Z.of_nat (length q) <= Zsum q <= hi * Z.of_nat (length q).
Proof.
  induction 1 as [ | v q Hv _ IH]; simpl.
  - lia.
  - rewrite Nat2Z.inj_succ. lia.
Qed.

Lemma mean_bounds lo hi (q : list Z) :
  q <> [] -> Forall (fun v => lo <= v <= hi) q -> lo <= mean q <= hi.
Proof.
  intros Hne Hq. pose proof (Zsum_bounds lo hi q Hq) as [Hl Hu].
  assert (Hlen : 0 < Z.of_nat (length q)) by (destruct q; [congruence | simpl; lia]).
  unfold mean. split.
  - apply Z.div_le_lower_bound; lia.
  - apply Z.div_le_upper_bound; lia.
Qed.

Lemma foldr_min_le d (q : list Z) :
  foldr Z.min d q <= d /\ Forall (fun v => foldr Z.min d q <= v) q.
Proof.
  induction q as [ | v q [IHd IHq]]; simpl.
  - split; [lia | constructor].
  - split; [lia | ]. constructor; [lia | ].
    eapply Forall_impl; [exact IHq | ]. simpl. intros; lia.
Qed.

Lemma foldr_max_ge d (q : list Z) :
  d <= foldr Z.max d q /\ Forall (fun v => v <= foldr Z.max d q) q.
Proof.
  induction q as [ | v q [IHd IHq]]; simpl.
  - split; [lia | constructor].
  - split; [lia | ]. constructor; [lia | ].
    eapply Forall_impl; [exact IHq | ]. simpl. intros; lia.
Qed.

Lemma queue_min_max (q : list Z) :
  Forall (fun v => queue_min q <= v <= queue_max q) q.
Proof.
  pose proof (foldr_min_le (hd 0 q) q) as [_ Hmin].
  pose proof (foldr_max_ge (hd 0 q) q) as [_ Hmax].
  apply Forall_forall. intros v Hv.
  rewrite Forall_forall in Hmin, Hmax. split; [apply Hmin | apply Hmax]; exact Hv.
Qed.

(** Reading the slots by index visits the buffer from its first slot to its
    last. *)
Lemma foldl_index {A} (f : A -> Z -> A) (pre q : list Z) (acc : A) :
  foldl (fun a i => f a (default 0 ((pre ++ q) !! i))) acc
        (seq (length pre) (length q))
  = foldl f acc q.
Proof.
  revert pre acc. induction q as [ | v q IH]; intros pre acc; simpl.
  - reflexivity.
  - rewrite list_lookup_middle by reflexivity. simpl.
    replace (pre ++ v :: q) with ((pre ++ [v]) ++ q)
      by (rewrite <- app_assoc; reflexivity).
    specialize (IH (pre ++ [v]) (f acc v)).
    rewrite length_app in IH. simpl in IH.
    replace (length pre + 1)%nat with (S (length pre)) in IH by lia.
    exact IH.
Qed.

Lemma Zsum_nonneg (q : list Z) : Forall (fun v => 0 <= v) q -> 0 <= Zsum q.
Proof. induction 1; simpl; lia. Qed.

(** The 64-bit accumulator holds the exact sum as long as it fits. *)
Lemma foldl_u64_exact (q : list Z) (acc : Z) :
  0 <= acc -> Forall (fun v => 0 <= v) q -> acc + Zsum q < 2 ^ 64 ->
  foldl (fun sum v => u64 (sum + v)) acc q = acc + Zsum q.
Proof.
  revert acc. induction q as [ | v q IH]; intros acc Hacc Hq Hfit; simpl in *.
  - lia.
  - inversion Hq as [ | ? ? Hv Hq']; subst.
    pose proof (Zsum_nonneg q Hq') as Hs.
    unfold u64 at 2. rewrite Z.mod_small by lia.
    rewrite IH; [lia | lia | exact Hq' | lia].
Qed.

Section Average.
Context `{cfg : Kconfig}.

Lemma sum_queue_exact (q : list Z) :
  RUNNING_AVG_SIZE <= 256 ->
  length q = Z.to_nat RUNNING_AVG_SIZE -> Forall is_u32 q ->
  sum_queue q = Zsum q.
Proof.
  intros Hk Hlen Hq. unfold sum_queue. rewrite <- Hlen.
  pose proof (foldl_index (fun sum v => u64 (sum + v)) [] q 0) as Hidx.
  simpl in Hidx. rewrite Hidx. clear Hidx.
  assert (Hq' : Forall (fun v => 0 <= v <= 2 ^ 32 - 1) q).
  { eapply Forall_impl; [exact Hq | ]. unfold is_u32. simpl. intros; lia. }
  pose proof (Zsum_bounds _ _ _ Hq') as Hb.
  assert (Hn : Z.of_nat (length q) <= 256) by lia.
  rewrite foldl_u64_exact; [lia | lia | | ].
  - eapply Forall_impl; [exact Hq | ]. unfold is_u32. simpl. intros; lia.
  - change (2 ^ 64) with (2 ^ 32 * 2 ^ 32). rewrite pow2_32 in *. nia.
Qed.

Lemma running_average_at_mean avg y :
  0 < RUNNING_AVG_SIZE <= 256 -> avg_wf avg -> is_u32 y ->
  running_average_at avg y =
    ({| queue := <[Z.to_nat (ptr avg) := y]> (queue avg);
        ptr := (ptr avg + 1) mod RUNNING_AVG_SIZE |},
     mean (<[Z.to_nat (ptr avg) := y]> (queue avg))).
Proof.
  intros Hk (Hlen & Hptr & Hq) Hy. unfold running_average_at.
  set (q := <[Z.to_nat (ptr avg) := y]> (queue avg)).
  assert (Hlen' : length q = Z.to_nat RUNNING_AVG_SIZE)
    by (unfold q; rewrite length_insert; exact Hlen).
  assert (Hq' : Forall is_u32 q) by (unfold q; apply Forall_insert; assumption).
  assert (Hmod : 0 <= (ptr avg + 1) mod RUNNING_AVG_SIZE < RUNNING_AVG_SIZE)
    by (apply Z.mod_pos_bound; lia).
  f_equal.
  - f_equal. unfold u8. apply Z.mod_small. change (2 ^ 8) with 256. lia.
  - rewrite sum_queue_exact by (assumption || lia).
    assert (Hne : q <> []) by (intros E; rewrite E in Hlen'; simpl in Hlen'; lia).
    assert (Hk' : Z.of_nat (length q) = RUNNING_AVG_SIZE) by lia.
    pose proof (mean_bounds 0 (2 ^ 32 - 1) q Hne) as Hm.
    unfold mean in *. rewrite Hk' in *.
    apply u32_small. unfold is_u32.
    assert (Forall (fun v => 0 <= v <= 2 ^ 32 - 1) q) as Hr.
    { eapply Forall_impl; [exact Hq' | ]. unfold is_u32. simpl. intros; lia. }
    specialize (Hm Hr). lia.
Qed.

Lemma avg_wf_step avg y :
  0 < RUNNING_AVG_SIZE <= 256 -> avg_wf avg -> is_u32 y ->
  avg_wf (fst (running_average_at avg y)).
Proof.
  intros Hk Hwf Hy. rewrite running_average_at_mean by assumption.
  destruct Hwf as (Hlen & Hptr & Hq). unfold avg_wf. simpl.
  rewrite length_insert. split; [exact Hlen | ]. split.
  - apply Z.mod_pos_bound. lia.
  - apply Forall_insert; assumption.
Qed.

(** The same without a bound of 256 on the buffer: the loop counter is an
    [int], and a sum of fewer than [2 ^ 31] 32-bit values fits 64 bits. *)
Lemma sum_queue_int (q : list Z) :
  RUNNING_AVG_SIZE < 2 ^ 31 ->
  length q = Z.to_nat RUNNING_AVG_SIZE -> Forall is_u32 q ->
  sum_queue q = Zsum q.
Proof.
  intros Hk Hlen Hq. unfold sum_queue. rewrite <- Hlen.
  pose proof (foldl_index (fun sum v => u64 (sum + v)) [] q 0) as Hidx.
  simpl in Hidx. rewrite Hidx. clear Hidx.
  assert (Hq' : Forall (fun v => 0 <= v <= 2 ^ 32 - 1) q).
  { eapply Forall_impl; [exact Hq | ]. unfold is_u32. simpl. intros; lia. }
  pose proof (Zsum_bounds _ _ _ Hq') as Hb.
  assert (H31 : 2 ^ 31 = 2147483648) by reflexivity.
  assert (Hn : Z.of_nat (length q) <= 2147483648) by lia.
  rewrite foldl_u64_exact; [lia | lia | | ].
  - eapply Forall_impl; [exact Hq | ]. unfold is_u32. simpl. intros; lia.
  - change (2 ^ 64) with (2 ^ 32 * 2 ^ 32). rewrite pow2_32 in *. nia.
Qed.

(** One step of the running average on a buffer whose slots lie in
    [[lo, hi]]: the cursor stays under the buffer length, and the mean lies
    in [[lo, hi]]. *)
Lemma running_average_at_within avg y lo hi :
  0 < RUNNING_AVG_SIZE < 2 ^ 31 ->
  length (queue avg) = Z.to_nat RUNNING_AVG_SIZE ->
  0 <= ptr avg < RUNNING_AVG_SIZE ->
  0 <= lo -> hi < 2 ^ 32 ->
  Forall (fun v => lo <= v <= hi) (queue avg) -> lo <= y <= hi ->
  queue (fst (running_average_at avg y))
    = <[Z.to_nat (ptr avg) := y]> (queue avg) /\
  0 <= ptr (fst (running_average_at avg y)) < RUNNING_AVG_SIZE /\
  lo <= snd (running_average_at avg y) <= hi.
Proof.
  intros Hk Hlen Hptr Hlo Hhi Hq Hy. unfold running_average_at. cbn [fst snd queue ptr].
  set (q := <[Z.to_nat (ptr avg) := y]> (queue avg)).
  assert (Hlen' : length q = Z.to_nat RUNNING_AVG_SIZE)
    by (unfold q; rewrite length_insert; exact Hlen).
  assert (Hq' : Forall (fun v => lo <= v <= hi) q)
    by (unfold q; apply Forall_insert; assumption).
  assert (Hu : Forall is_u32 q).
  { eapply Forall_impl; [exact Hq' | ]. simpl. intros v Hv. unfold is_u32. lia. }
  split; [reflexivity | ]. split.
  - pose proof (Z.mod_pos_bound (ptr avg + 1) RUNNING_AVG_SIZE) as Hmod.
    set (m := (ptr avg + 1) mod RUNNING_AVG_SIZE) in *.
    unfold u8. pose proof (Z.mod_pos_bound m (2 ^ 8)) as Hb.
    pose proof (Z.mod_le m (2 ^ 8)) as Hle.
    assert (0 < 2 ^ 8) by reflexivity. lia.
  - rewrite sum_queue_int by (assumption || lia).
    assert (Hne : q <> []) by (intros E; rewrite E in Hlen'; simpl in Hlen'; lia).
    assert (Hk' : Z.of_nat (length q) = RUNNING_AVG_SIZE) by lia.
    pose proof (mean_bounds lo hi q Hne Hq') as Hm.
    unfold mean in Hm. rewrite Hk' in Hm.
    rewrite u32_small by (unfold is_u32; lia). exact Hm.
Qed.

Lemma running_average_valid channel y cd c :
  0 <= channel < ADC_MAX_CHANNELS ->
  cd !! Z.to_nat channel = Some c ->
  running_average channel y cd =
    (<[Z.to_nat channel :=
         set_r_avg c (fst (running_average_at (r_avg c) y))]> cd,
     snd (running_average_at (r_avg c) y)).
Proof.
  intros Hch Hc. unfold running_average, chk_chn.
  assert (Hlt : (channel <? ADC_MAX_CHANNELS) = true) by (apply Z.ltb_lt; lia).
  rewrite Hlt, Hc. simpl.
  destruct (running_average_at (r_avg c) y). reflexivity.
Qed.

End Average.

(** ** The window under readings inside the calibration range *)

Lemma ADC_MAX_value : ADC_MAX = 4096.
Proof. reflexivity. Qed.

Section Window.
Context `{cfg : Kconfig}.

Lemma slid_midpoint_mono w m1 m2 :
  0 <= w -> 0 <= m1 <= m2 -> slid_midpoint w m1 <= slid_midpoint w m2.
Proof.
  intros Hw Hm. unfold slid_midpoint.
  destruct (Z.gtb_spec m1 w), (Z.gtb_spec m2 w);
    Z.to_euclidean_division_equations; lia.
Qed.

Lemma hyst_step_safe h lo hi x :
  0 <= lo < hi -> hi <= ADC_MAX -> 1 <= hysteresis h <= 1000 ->
  window_safe h lo hi ->
  lo <= x <= hi ->
  let r := running_hyst_at h lo hi x in
  hysteresis (fst r) = hysteresis h /\
  window_safe (fst r) lo hi /\
  lo <= snd r <= hi.
Proof.
  intros Hcal Hmax Hw (Htop & Hroom & Hlow) Hx. rewrite ADC_MAX_value in Hmax.
  assert (Hwu : is_u32 (hysteresis h)) by (unfold is_u32; rewrite pow2_32; lia).
  assert (Hlou : is_u32 lo) by (unfold is_u32; rewrite pow2_32; lia).
  assert (Hhiu : is_u32 hi) by (unfold is_u32; rewrite pow2_32; lia).
  assert (Hhalf : 0 <= hysteresis h / 2 <= hysteresis h /\
                  2 * (hysteresis h / 2) <= hysteresis h <= 2 * (hysteresis h / 2) + 1)
    by (Z.to_euclidean_division_equations; lia).
  unfold upward_safe, next_top in Hroom.
  set (d := hysteresis h / 2) in *.
  set (w := hysteresis h) in *.
  destruct (Z_lt_le_dec (max h) x) as [Hup | Hnup].
  - (* above the window *)
    cbv zeta.
    rewrite running_hyst_at_up
      by (try assumption; fold d; fold w; rewrite ?pow2_32; lia).
    fold d. fold w. cbv zeta. simpl. fold w.
    split; [reflexivity | ]. split; [ | lia].
    unfold window_safe, upward_safe, next_top. simpl. fold w. fold d.
    set (top := Z.min (x + d) hi) in *.
    assert (Htopv : top = x + d \/ top = hi) by (unfold top; lia).
    assert (Htopb : x <= top <= hi /\ top <= x + d) by (unfold top; lia).
    assert (Hnext : Z.min (max h + 1 + d) hi <= top) by (unfold top; lia).
    clearbody top.
    assert (Hmid : lo <= slid_midpoint w top).
    { destruct Hroom as [Hwide | [Heq | Hsafe]]; [ | lia | ].
      - unfold slid_midpoint. destruct (Z.gtb_spec top w);
          Z.to_euclidean_division_equations; lia.
      - pose proof (slid_midpoint_mono w (Z.min (max h + 1 + d) hi) top) as Hm.
        lia. }
    split; [lia | ]. split.
    + destruct Hroom as [Hwide | _]; [left; exact Hwide | right; right].
      pose proof (slid_midpoint_mono w top (Z.min (top + 1 + d) hi)) as Hm.
      destruct (Z.eq_dec top hi) as [-> | Hne].
      * replace (Z.min (hi + 1 + d) hi) with hi by lia. exact Hmid.
      * lia.
    + left. unfold slid_midpoint in Hmid.
      destruct (Z.gtb_spec top w); split; try lia.
  - destruct (Z_lt_le_dec x (min h)) as [Hdown | Hin].
    + (* below the window *)
      assert (Hminu : is_u32 (min h))
        by (unfold is_u32; rewrite pow2_32 in *; lia).
      destruct (Z_lt_le_dec x d) as [Hborrow | Hplain].
      * cbv zeta. rewrite running_hyst_at_down_borrow
          by (try assumption; fold d; fold w; rewrite ?pow2_32; lia).
        fold d. fold w. simpl. split; [reflexivity | ]. split; [ | lia].
        unfold window_safe, upward_safe, next_top. simpl. fold w. fold d.
        rewrite pow2_32.
        split; [lia | ]. split; [ | right; lia].
        destruct (Z_le_gt_dec (lo + w) hi) as [Hwide | Hnarrow];
          [left; exact Hwide | right].
        destruct (Z_le_gt_dec hi (x - d + w)) as [Hcap | Hfree];
          [left; lia | right].
        assert (Hm : Z.min (Z.min (x + (w - d)) hi + 1 + d) hi = hi) by lia.
        rewrite Hm. unfold slid_midpoint. destruct (Z.gtb_spec hi w);
          Z.to_euclidean_division_equations; lia.
      * cbv zeta. rewrite running_hyst_at_down
          by (try assumption; fold d; fold w; rewrite ?pow2_32; lia).
        fold d. fold w. cbv zeta. simpl. split; [reflexivity | ]. split; [ | lia].
        unfold window_safe, upward_safe. simpl. fold w. fold d.
        set (bottom := Z.max (x - d) lo) in *.
        assert (Hb : lo <= bottom <= x) by (unfold bottom; lia).
        clearbody bottom.
        set (top := Z.min (bottom + w) hi) in *.
        assert (Ht : bottom <= top <= hi /\ (top = bottom + w \/ top = hi))
          by (unfold top; lia).
        clearbody top.
        assert (Hq : 0 <= (top - bottom) / 2)
          by (Z.to_euclidean_division_equations; lia).
        split; [lia | ]. split; [ | left; lia].
        destruct (Z_le_gt_dec (lo + w) hi) as [Hwide | Hnarrow];
          [left; exact Hwide | right; left; lia].
    + (* inside the window *)
      destruct Hlow as [[Hord Hmid] | Hbor]; [ | lia].
      assert (Hminu : is_u32 (min h)) by (unfold is_u32; rewrite pow2_32; lia).
      assert (Hmaxu : is_u32 (max h)) by (unfold is_u32; rewrite pow2_32; lia).
      cbv zeta. rewrite running_hyst_at_hold by (assumption || lia).
      simpl. split; [reflexivity | ]. split.
      * unfold window_safe, upward_safe, next_top. fold w. fold d.
        split; [lia | ]. split; [exact Hroom | ]. left. split; [lia | exact Hmid].
      * assert (0 <= (max h - min h) / 2 <= max h - min h)
          by (Z.to_euclidean_division_equations; lia).
        lia.
Qed.

End Window.

(** ** The acquisition task, channel by channel *)

Section Pipeline.
Context `{cfg : Kconfig}.

Lemma sample_update_inv c raw :
  0 < RUNNING_AVG_SIZE < 2 ^ 31 ->
  channel_inv c -> within_cal c raw ->
  channel_inv (sample_update c raw) /\
  min_cal (sample_update c raw) = min_cal c /\
  max_cal (sample_update c raw) = max_cal c.
Proof.
  intros Hk (Hcal & Hwin & Hlen & Hptr & Hq & Hn) Hraw.
  destruct Hcal as (Hlo & Hhi & Hw). unfold within_cal in *.
  pose proof (hyst_step_safe (r_hyst c) (min_cal c) (max_cal c) raw
                Hlo Hhi Hw Hwin Hraw) as Hstep.
  cbv zeta in Hstep. destruct Hstep as (Hw' & Hwin' & Hy).
  set (hy := running_hyst_at (r_hyst c) (min_cal c) (max_cal c) raw) in *.
  rewrite ADC_MAX_value in Hhi.
  assert (Hfit : max_cal c < 2 ^ 32) by (rewrite pow2_32; lia).
  destruct (running_average_at_within (r_avg c) (snd hy) (min_cal c) (max_cal c)
              Hk Hlen Hptr (proj1 Hlo) Hfit Hq Hy) as (Hq' & Hptr' & Hout).
  unfold sample_update. fold hy.
  set (av := running_average_at (r_avg c) (snd hy)) in *.
  split; [ | split; reflexivity].
  unfold channel_inv, calibrated, within_cal. cbn [r_hyst r_avg min_cal max_cal
                                                    normalized_value].
  split; [rewrite Hw', ADC_MAX_value; lia | ].
  split; [exact Hwin' | ].
  split; [rewrite Hq', length_insert; exact Hlen | ].
  split; [exact Hptr' | ].
  split; [rewrite Hq'; apply Forall_insert; assumption | exact Hout].
Qed.

(** Filtering one channel leaves the records of the others alone. *)
Lemma running_hyst_other ch x cd (i : nat) :
  i <> Z.to_nat ch -> fst (running_hyst ch x cd) !! i = cd !! i.
Proof.
  intros Hne. unfold running_hyst.
  destruct (negb (chk_chn ch)); [reflexivity | ].
  destruct (cd !! Z.to_nat ch) as [c | ]; [ | reflexivity].
  destruct (running_hyst_at (r_hyst c) (min_cal c) (max_cal c) x). simpl.
  apply list_lookup_insert_ne. congruence.
Qed.

Lemma running_average_other ch y cd (i : nat) :
  i <> Z.to_nat ch -> fst (running_average ch y cd) !! i = cd !! i.
Proof.
  intros Hne. unfold running_average.
  destruct (negb (chk_chn ch)); [reflexivity | ].
  destruct (cd !! Z.to_nat ch) as [c | ]; [ | reflexivity].
  destruct (running_average_at (r_avg c) y). simpl.
  apply list_lookup_insert_ne. congruence.
Qed.

Lemma find_channel_range n ch0 pch ch :
  find_channel n ch0 pch = Some ch -> ch0 <= ch < ch0 + Z.of_nat n.
Proof.
  revert ch0. induction n as [ | n IH]; intros ch0 Hf; simpl in Hf.
  - discriminate.
  - destruct (Z.land (physical_channels ch0) 7 =? pch).
    + inversion Hf; subst. lia.
    + apply IH in Hf. lia.
Qed.

Lemma addressed_to_valid channel p :
  addressed_to channel p -> 0 <= channel < ADC_MAX_CHANNELS.
Proof.
  unfold addressed_to. intros Hf. apply find_channel_range in Hf.
  destruct (Z.le_gt_cases 0 ADC_MAX_CHANNELS).
  - rewrite Z2Nat.id in Hf by assumption. lia.
  - rewrite Z2Nat.nonpos in Hf by lia. simpl in Hf. lia.
Qed.

(** The critical section of [process_sample] on the matched channel. *)
Lemma critical_section_matched channel raw cd c :
  0 <= channel < ADC_MAX_CHANNELS ->
  cd !! Z.to_nat channel = Some c ->
  let cd1 := alter (fun c => set_raw_value c raw) (Z.to_nat channel) cd in
  let r2 := running_hyst channel raw cd1 in
  let r3 := running_average channel (snd r2) (fst r2) in
  alter (fun c => set_normalized_value c (snd r3)) (Z.to_nat channel) (fst r3)
    !! Z.to_nat channel = Some (sample_update c raw).
Proof.
  intros Hch Hc. cbv zeta.
  assert (Hlen : (Z.to_nat channel < length cd)%nat)
    by (apply lookup_lt_is_Some; eauto).
  assert (H1 : alter (fun c => set_raw_value c raw) (Z.to_nat channel) cd
               !! Z.to_nat channel = Some (set_raw_value c raw)).
  { rewrite list_lookup_alter_eq. rewrite Hc. reflexivity. }
  rewrite (running_hyst_valid _ _ _ _ Hch H1). simpl.
  set (cd1 := alter _ _ cd) in *.
  set (hy := running_hyst_at (r_hyst c) (min_cal c) (max_cal c) raw).
  assert (H2 : <[Z.to_nat channel := set_r_hyst (set_raw_value c raw) (fst hy)]> cd1
               !! Z.to_nat channel
               = Some (set_r_hyst (set_raw_value c raw) (fst hy))).
  { apply list_lookup_insert_eq. unfold cd1. rewrite length_alter. exact Hlen. }
  rewrite (running_average_valid _ _ _ _ Hch H2). simpl.
  rewrite list_lookup_alter_eq.
  rewrite list_lookup_insert_eq
    by (rewrite length_insert; unfold cd1; rewrite length_alter; exact Hlen).
  reflexivity.
Qed.

Lemma critical_section_other ch channel raw cd :
  Z.to_nat channel <> Z.to_nat ch ->
  let cd1 := alter (fun c => set_raw_value c raw) (Z.to_nat ch) cd in
  let r2 := running_hyst ch raw cd1 in
  let r3 := running_average ch (snd r2) (fst r2) in
  alter (fun c => set_normalized_value c (snd r3)) (Z.to_nat ch) (fst r3)
    !! Z.to_nat channel = cd !! Z.to_nat channel.
Proof.
  intros Hne. cbv zeta.
  rewrite list_lookup_alter_ne by congruence.
  rewrite running_average_other by exact Hne.
  rewrite running_hyst_other by exact Hne.
  apply list_lookup_alter_ne. congruence.
Qed.

(** One conversion result either leaves the record of [channel] as it is,
    or is addressed to it and runs the two filters on it. *)
Lemma process_sample_channel p free_after st channel c :
  0 <= channel < ADC_MAX_CHANNELS ->
  channel_data st !! Z.to_nat channel = Some c ->
  channel_data (process_sample p free_after st) !! Z.to_nat channel = Some c \/
  (addressed_to channel p /\
   channel_data (process_sample p free_after st) !! Z.to_nat channel
   = Some (sample_update c (type1_data p))).
Proof.
  intros Hch Hc. unfold process_sample, addressed_to.
  destruct (find_channel (Z.to_nat ADC_MAX_CHANNELS) 0 (type1_channel p))
    as [ch | ] eqn:Hfind; [ | left; exact Hc].
  pose proof (addressed_to_valid ch p Hfind) as Hchv.
  unfold xSemaphoreTake.
  destruct (free_after <=? pdMS_TO_TICKS 10); [ | left; exact Hc].
  simpl.
  destruct (running_hyst ch (type1_data p) _) as [cd2 h] eqn:E2.
  destruct (running_average ch h cd2) as [cd3 a] eqn:E3.
  simpl.
  destruct (Z.eq_dec ch channel) as [-> | Hne].
  - right. split; [reflexivity | ].
    pose proof (critical_section_matched channel (type1_data p)
                  (channel_data st) c Hch Hc) as Hm.
    cbv zeta in Hm. rewrite E2 in Hm. simpl in Hm. rewrite E3 in Hm.
    exact Hm.
  - left.
    assert (Hn : Z.to_nat channel <> Z.to_nat ch) by lia.
    pose proof (critical_section_other ch channel (type1_data p)
                  (channel_data st) Hn) as Hm.
    cbv zeta in Hm. rewrite E2 in Hm. simpl in Hm. rewrite E3 in Hm.
    simpl in Hm. rewrite Hm. exact Hc.
Qed.

End Pipeline.

Section Task.
Context `{cfg : Kconfig}.

Lemma samples_channel_inv channel lo hi
  (samples : list (adc_digi_output_data_t * Z)) :
  0 < RUNNING_AVG_SIZE < 2 ^ 31 ->
  0 <= channel < ADC_MAX_CHANNELS ->
  Forall (fun ps => addressed_to channel (fst ps) ->
                    lo <= type1_data (fst ps) <= hi) samples ->
  forall st c,
    channel_data st !! Z.to_nat channel = Some c ->
    channel_inv c -> min_cal c = lo -> max_cal c = hi ->
    exists c',
      channel_data (foldl (fun s ps => process_sample (fst ps) (snd ps) s)
                          st samples) !! Z.to_nat channel = Some c' /\
      channel_inv c' /\ min_cal c' = lo /\ max_cal c' = hi.
Proof.
  intros Hk Hch. induction 1 as [ | ps samples Hps _ IH]; intros st c Hc Hinv Hlo Hhi.
  - exists c. simpl. auto.
  - simpl.
    destruct (process_sample_channel (fst ps) (snd ps) st channel c Hch Hc)
      as [Hsame | [Haddr Hupd]].
    + exact (IH _ c Hsame Hinv Hlo Hhi).
    + assert (Hraw : within_cal c (type1_data (fst ps)))
        by (unfold within_cal; rewrite Hlo, Hhi; apply Hps; exact Haddr).
      destruct (sample_update_inv c (type1_data (fst ps)) Hk Hinv Hraw)
        as (Hinv' & Hlo' & Hhi').
      apply (IH _ _ Hupd Hinv'); congruence.
Qed.

Lemma task_adc_cycle_inv channel lo hi ret
  (samples : list (adc_digi_output_data_t * Z)) st c :
  0 < RUNNING_AVG_SIZE < 2 ^ 31 ->
  0 <= channel < ADC_MAX_CHANNELS ->
  Forall (fun ps => addressed_to channel (fst ps) ->
                    lo <= type1_data (fst ps) <= hi) samples ->
  channel_data st !! Z.to_nat channel = Some c ->
  channel_inv c -> min_cal c = lo -> max_cal c = hi ->
  exists c',
    channel_data (task_adc_cycle ret samples st) !! Z.to_nat channel = Some c' /\
    channel_inv c' /\ min_cal c' = lo /\ max_cal c' = hi.
Proof.
  intros Hk Hch Hs Hc Hinv Hlo Hhi. unfold task_adc_cycle.
  destruct (ret =? ESP_OK).
  - eapply samples_channel_inv; eauto.
  - destruct (ret =? ESP_ERR_TIMEOUT); exists c; simpl; auto.
Qed.

Lemma task_adc_inv channel lo hi
  (cycles : list (esp_err_t * list (adc_digi_output_data_t * Z))) :
  0 < RUNNING_AVG_SIZE < 2 ^ 31 ->
  0 <= channel < ADC_MAX_CHANNELS ->
  readings_within channel lo hi cycles ->
  forall st c,
    channel_data st !! Z.to_nat channel = Some c ->
    channel_inv c -> min_cal c = lo -> max_cal c = hi ->
    exists c',
      channel_data (task_adc cycles st) !! Z.to_nat channel = Some c' /\
      channel_inv c' /\ min_cal c' = lo /\ max_cal c' = hi.
Proof.
  intros Hk Hch. unfold readings_within, task_adc.
  induction 1 as [ | cyc cycles Hcyc _ IH]; intros st c Hc Hinv Hlo Hhi.
  - exists c. simpl. auto.
  - simpl.
    destruct (task_adc_cycle_inv channel lo hi (fst cyc) (snd cyc) st c
                Hk Hch Hcyc Hc Hinv Hlo Hhi) as (c1 & Hc1 & Hinv1 & Hlo1 & Hhi1).
    exact (IH _ c1 Hc1 Hinv1 Hlo1 Hhi1).
Qed.

(** A successful [adc_get_normalized] returns the stored filtered value. *)
Lemma adc_get_normalized_ok channel wait free_after st c :
  0 <= channel < ADC_MAX_CHANNELS ->
  channel_data st !! Z.to_nat channel = Some c ->
  free_after <= wait ->
  fst (adc_get_normalized channel Addr wait free_after st)
  = (ESP_OK, Some (normalized_value c)).
Proof.
  intros Hch Hc Hfree. unfold adc_get_normalized, chk_chn, xSemaphoreTake.
  assert (Hlt : (channel <? ADC_MAX_CHANNELS) = true) by (apply Z.ltb_lt; lia).
  assert (Hle : (free_after <=? wait) = true) by (apply Z.leb_le; lia).
  rewrite Hlt, Hle. simpl. unfold channel_at. rewrite Hc. reflexivity.
Qed.

End Task.

(** ** The order of the window edges *)

Section Order.
Context `{cfg : Kconfig}.

(** Every case of [running_hyst] but the borrowing one keeps
    window_min <= window_max. *)
Lemma running_hyst_at_ordered h lo hi x :
  hyst_u32 h -> hysteresis h <= 1000 ->
  0 <= lo <= hi -> hi <= ADC_MAX -> 0 <= x <= hi ->
  min h <= max h ->
  hysteresis h / 2 <= x \/ min h <= x ->
  min (fst (running_hyst_at h lo hi x)) <= max (fst (running_hyst_at h lo hi x)).
Proof.
  intros (Hminu & Hmaxu & Hwu) Hw Hcal Hmax Hx Hord Hsafe.
  rewrite ADC_MAX_value in Hmax.
  assert (Hlou : is_u32 lo) by (unfold is_u32; rewrite pow2_32; lia).
  assert (Hhiu : is_u32 hi) by (unfold is_u32; rewrite pow2_32; lia).
  assert (Hhalf : 0 <= hysteresis h / 2 <= hysteresis h)
    by (unfold is_u32 in Hwu; Z.to_euclidean_division_equations; lia).
  destruct (Z_lt_le_dec (max h) x) as [Hup | Hnup].
  - rewrite running_hyst_at_up by (try assumption; rewrite ?pow2_32; lia).
    cbv zeta. simpl.
    destruct (Z.gtb_spec (Z.min (x + hysteresis h / 2) hi) (hysteresis h)); lia.
  - destruct (Z_lt_le_dec x (min h)) as [Hdown | Hin].
    + rewrite running_hyst_at_down by (try assumption; rewrite ?pow2_32; lia).
      cbv zeta. simpl. unfold is_u32 in Hwu. lia.
    + rewrite running_hyst_at_hold by (assumption || lia). simpl. exact Hord.
Qed.

(** [adc_set_calibration], when it goes through, puts the window at the
    bottom of the new range. *)
Lemma adc_set_calibration_places channel lo hi free_after nvs_res st c :
  0 <= channel < ADC_MAX_CHANNELS ->
  0 <= lo < hi -> hi <= ADC_MAX ->
  0 <= hysteresis (r_hyst c) <= 1000 ->
  free_after <= pdMS_TO_TICKS 100 ->
  channel_data st !! Z.to_nat channel = Some c ->
  exists c',
    channel_data (snd (adc_set_calibration channel lo hi free_after nvs_res st))
      !! Z.to_nat channel = Some c' /\
    min_cal c' = lo /\ max_cal c' = hi /\
    hysteresis (r_hyst c') = hysteresis (r_hyst c) /\
    window_placed (r_hyst c') lo hi /\
    min (r_hyst c') <= max (r_hyst c').
Proof.
  intros Hch Hlo Hhi Hw Hfree Hc.
  unfold adc_set_calibration, chk_chn, xSemaphoreTake, save_channel_config, chk_chn.
  assert (Hlt : (channel <? ADC_MAX_CHANNELS) = true) by (apply Z.ltb_lt; lia).
  assert (H1 : (lo >=? hi) = false) by (rewrite Z.geb_leb; apply Z.leb_gt; lia).
  assert (H2 : (hi >? ADC_MAX) = false) by (rewrite Z.gtb_ltb; apply Z.ltb_ge; lia).
  assert (H3 : (free_after <=? pdMS_TO_TICKS 100) = true) by (apply Z.leb_le; lia).
  rewrite Hlt, H1, H2, H3. simpl.
  rewrite list_lookup_alter_eq, Hc. simpl.
  eexists. split; [reflexivity | ]. simpl.
  rewrite ADC_MAX_value in Hhi.
  rewrite u32_small by (unfold is_u32; rewrite pow2_32; lia).
  rewrite MIN_min. unfold window_placed. simpl.
  repeat split; try reflexivity; lia.
Qed.

(** [adc_set_hysteresis], when it goes through, changes the width and
    nothing else of the window. *)
Lemma adc_set_hysteresis_keeps channel width free_after nvs_res st c :
  0 <= channel < ADC_MAX_CHANNELS ->
  1 <= width <= 1000 ->
  free_after <= pdMS_TO_TICKS 100 ->
  channel_data st !! Z.to_nat channel = Some c ->
  exists c',
    channel_data (snd (adc_set_hysteresis channel width free_after nvs_res st))
      !! Z.to_nat channel = Some c' /\
    min (r_hyst c') = min (r_hyst c) /\ max (r_hyst c') = max (r_hyst c) /\
    hysteresis (r_hyst c') = width.
Proof.
  intros Hch Hw Hfree Hc.
  unfold adc_set_hysteresis, chk_chn, xSemaphoreTake, save_channel_config, chk_chn.
  assert (Hlt : (channel <? ADC_MAX_CHANNELS) = true) by (apply Z.ltb_lt; lia).
  assert (H1 : (width =? 0) = false) by (apply Z.eqb_neq; lia).
  assert (H2 : (width >? 1000) = false) by (rewrite Z.gtb_ltb; apply Z.ltb_ge; lia).
  assert (H3 : (free_after <=? pdMS_TO_TICKS 100) = true) by (apply Z.leb_le; lia).
  rewrite Hlt, H1, H2, H3. simpl.
  rewrite list_lookup_alter_eq, Hc. simpl.
  eexists. split; [reflexivity | ]. simpl. repeat split; reflexivity.
Qed.

End Order.

(** ** Concrete runs *)

(** The scenario of the text: ten slots, width 40, calibration [0, 4095];
    one reading of 2000 moves the window to [1980, 2020] and the filtered
    value becomes 200. *)
Example first_reading_2000 :
  channel_data (task_adc [(ESP_OK, [sample 6 2000])] started) !! 0%nat
  = Some {| raw_value := 2000; normalized_value := 200;
            r_hyst := {| min := 1980; max := 2020; hysteresis := 40 |};
            r_avg := {| queue := 2000 :: replicate 9 0; ptr := 1 |};
            min_cal := 0; max_cal := 4095 |}.
Proof. reflexivity. Qed.

(** During warm-up the zero-filled slots pull the filtered value under a
    positive calibration minimum, although the reading is inside the range. *)
Example warm_up_below_calibration :
  let st := snd (adc_set_calibration 0 100 3900 0 ESP_OK started) in
  fst (adc_get_normalized 0 Addr 0 0 (task_adc [(ESP_OK, [sample 6 500])] st))
  = (ESP_OK, Some 50).
Proof. reflexivity. Qed.

(** A window narrower than the width, although inside the calibration range,
    is moved under the calibration minimum by a reading inside the range, and
    then holds a value under that minimum. *)
Example narrow_window_escapes :
  let h := {| min := 30; max := 30; hysteresis := 100 |} in
  let r1 := running_hyst_at h 30 35 31 in
  fst r1 = {| min := 0; max := 35; hysteresis := 100 |} /\
  snd (running_hyst_at (fst r1) 30 35 32) = 17.
Proof. split; reflexivity. Qed.

(** The held value reaches the caller: with the buffer full of readings of
    30, the readings 31 and then ten times 32, all inside the calibration
    range [30, 35], leave a filtered value of 17. *)
Example narrow_window_filtered_under :
  let c := {| raw_value := 30; normalized_value := 30;
              r_hyst := {| min := 30; max := 30; hysteresis := 100 |};
              r_avg := {| queue := replicate 10 30; ptr := 0 |};
              min_cal := 30; max_cal := 35 |} in
  let st := {| channel_data := [c; c; c; c]; errors := zero_errors;
               trace := [] |} in
  fst (adc_get_normalized 0 Addr 0 0
         (task_adc [(ESP_OK, sample 6 31 :: replicate 10 (sample 6 32))] st))
  = (ESP_OK, Some 17).
Proof. reflexivity. Qed.

(** The same happens to a state the accessor API reaches: with calibration
    [101, 200] and width 40 a reading of 170 moves the window to [150, 190];
    [adc_set_hysteresis] then sets the width to 250 and keeps the edges; a
    reading of 195 moves the window to [0, 200], and a reading of 150 is
    answered with 100. *)
Example narrow_after_set_hysteresis :
  let h0 := {| min := 101; max := 141; hysteresis := 40 |} in
  let h1 := fst (running_hyst_at h0 101 200 170) in
  let h2 := {| min := min h1; max := max h1; hysteresis := 250 |} in
  let r3 := running_hyst_at h2 101 200 195 in
  h1 = {| min := 150; max := 190; hysteresis := 40 |} /\
  fst r3 = {| min := 0; max := 200; hysteresis := 250 |} /\
  snd (running_hyst_at (fst r3) 101 200 150) = 100.
Proof. repeat split; reflexivity. Qed.

Section Narrow.
Context `{cfg : Kconfig}.

(** In a calibration range narrower than the width, a window inside the
    range that is not safe for upward slides answers a reading inside the
    range with a value under the calibration minimum: the reading just above
    the window moves it, and the calibration minimum is then held at the
    midpoint. *)
Lemma upward_safe_needed h lo hi :
  0 <= lo < hi -> hi <= ADC_MAX -> 1 <= hysteresis h <= 1000 ->
  window_inside h lo hi -> hi - lo < hysteresis h ->
  ~ upward_safe h lo hi ->
  lo <= max h + 1 <= hi /\
  snd (running_hyst_at (fst (running_hyst_at h lo hi (max h + 1))) lo hi lo)
  < lo.
Proof.
  intros Hcal Hmax Hw (Hlo & Hord & Hhi) Hnarrow Hnot.
  rewrite ADC_MAX_value in Hmax.
  assert (Htop : max h <> hi) by (intros E; apply Hnot; left; exact E).
  assert (Hmid : slid_midpoint (hysteresis h) (next_top h hi) < lo).
  { destruct (Z_lt_le_dec (slid_midpoint (hysteresis h) (next_top h hi)) lo)
      as [Hlt | Hge]; [exact Hlt | ].
    exfalso. apply Hnot. right. exact Hge. }
  split; [lia | ].
  assert (Hwu : is_u32 (hysteresis h)) by (unfold is_u32; rewrite pow2_32; lia).
  assert (Hhiu : is_u32 hi) by (unfold is_u32; rewrite pow2_32; lia).
  assert (Hhalf : 0 <= hysteresis h / 2 <= hysteresis h)
    by (Z.to_euclidean_division_equations; lia).
  rewrite (running_hyst_at_up h lo hi (max h + 1))
    by (try assumption; rewrite ?pow2_32; lia).
  cbv zeta. cbn [fst]. fold (next_top h hi).
  unfold slid_midpoint in Hmid. cbv zeta in Hmid.
  assert (Hnext : max h + 1 <= next_top h hi <= hi) by (unfold next_top; lia).
  set (top := next_top h hi) in *. clearbody top.
  set (bottom := if top >? hysteresis h then top - hysteresis h else 0) in *.
  assert (Hbottom : 0 <= bottom <= lo)
    by (unfold bottom; destruct (Z.gtb_spec top (hysteresis h)); lia).
  clearbody bottom.
  rewrite running_hyst_at_hold;
    [exact Hmid | | | ]; cbn [min max]; unfold is_u32; rewrite ?pow2_32; lia.
Qed.

End Narrow.

(** ** The properties *)

(** C1, as amended. For a valid channel whose calibration satisfies
    0 <= min < max <= 4096 and whose width is between 1 and 1000, with a
    buffer of K slots, K a positive [int], and the cursor under K; whose
    window lies inside the calibration range,
    calibration.min <= window_min <= window_max <= calibration.max, and, when
    calibration.max - calibration.min < width, either has window_max =
    calibration.max or is such that the window the next upward slide leaves
    has its midpoint at or above calibration.min; whose buffer slots and
    stored filtered value lie inside the calibration range: after any run of
    the acquisition task in which every reading of that channel lies inside
    [calibration.min, calibration.max], [adc_get_normalized], when it obtains
    the mutex, returns a value inside [calibration.min, calibration.max]. *)
Theorem normalized_within_calibration `{cfg : Kconfig}
  (channel : Z) (c : adc_channel_data_t)
  (cycles : list (esp_err_t * list (adc_digi_output_data_t * Z)))
  (st : adc_t) (wait free_after : Z) :
  0 < RUNNING_AVG_SIZE < 2 ^ 31 ->
  0 <= channel < ADC_MAX_CHANNELS ->
  channel_data st !! Z.to_nat channel = Some c ->
  calibrated c ->
  window_inside (r_hyst c) (min_cal c) (max_cal c) ->
  (max_cal c - min_cal c < hysteresis (r_hyst c) ->
   upward_safe (r_hyst c) (min_cal c) (max_cal c)) ->
  length (queue (r_avg c)) = Z.to_nat RUNNING_AVG_SIZE ->
  0 <= ptr (r_avg c) < RUNNING_AVG_SIZE ->
  Forall (within_cal c) (queue (r_avg c)) ->
  within_cal c (normalized_value c) ->
  readings_within channel (min_cal c) (max_cal c) cycles ->
  free_after <= wait ->
  exists v,
    fst (adc_get_normalized channel Addr wait free_after (task_adc cycles st))
      = (ESP_OK, Some v) /\
    min_cal c <= v <= max_cal c.
Proof.
  intros Hk Hch Hc Hcal Hwin Hnarrow Hlen Hptr Hq Hn Hreads Hfree.
  assert (Hinv : channel_inv c).
  { unfold channel_inv. split; [exact Hcal | ].
    split; [ | split; [exact Hlen | split; [exact Hptr | split; [exact Hq | exact Hn]]]].
    destruct Hwin as (Hlo & Hord & Hhi). destruct Hcal as (Hrange & _ & _).
    unfold window_safe. split; [lia | ]. split.
    - destruct (Z_le_gt_dec (min_cal c + hysteresis (r_hyst c)) (max_cal c))
        as [Hwide | Hlt]; [left; exact Hwide | right; apply Hnarrow; lia].
    - left. split; [lia | ].
      assert (0 <= (max (r_hyst c) - min (r_hyst c)) / 2)
        by (Z.to_euclidean_division_equations; lia).
      lia. }
  destruct (task_adc_inv channel (min_cal c) (max_cal c) cycles Hk Hch Hreads
              st c Hc Hinv eq_refl eq_refl) as (c' & Hc' & Hinv' & Hlo & Hhi).
  exists (normalized_value c'). split.
  - apply adc_get_normalized_ok; assumption.
  - destruct Hinv' as (_ & _ & _ & _ & _ & Hv). unfold within_cal in Hv.
    rewrite Hlo, Hhi in Hv. exact Hv.
Qed.

Lemma normalized_within_calibration_run :
  exists v,
    fst (adc_get_normalized 0 Addr 10 0
           (task_adc [(ESP_OK, [sample 6 2000; sample 7 9; sample 6 2010]);
                      (ESP_ERR_TIMEOUT, []);
                      (ESP_OK, [sample 6 120])]
              (snd (adc_set_hysteresis 0 60 0 ESP_OK started))))
      = (ESP_OK, Some v) /\
    0 <= v <= 4095.
Proof.
  apply (normalized_within_calibration (cfg := sdkconfig) 0
           (channel_with 0 40 60 0 4095 10)).
  - vm_compute. intuition congruence.
  - vm_compute. intuition congruence.
  - reflexivity.
  - vm_compute. intuition congruence.
  - vm_compute. intuition congruence.
  - intros Hnarrow. vm_compute in Hnarrow. congruence.
  - reflexivity.
  - vm_compute. intuition congruence.
  - repeat constructor; vm_compute; congruence.
  - vm_compute. intuition congruence.
  - unfold readings_within.
    repeat match goal with
           | |- Forall _ _ => constructor
           | |- _ => progress simpl
           end;
      intros Haddr; vm_compute in Haddr |- *; intuition congruence.
  - vm_compute. congruence.
Defined.

(** C1, as stated, fails: with calibration [100, 3900] and the window
    [100, 140] that [adc_set_calibration] places, ten readings of 50 give a
    filtered value of 50, under the calibration minimum. *)
Lemma reading_below_calibration_passes :
  ~ @filtered_within_calibration_always sdkconfig.
Proof.
  intros Hclaim.
  pose (st := snd (adc_set_calibration 0 100 3900 0 ESP_OK started)).
  pose (c := set_r_hyst (set_cal (channel_with 0 40 40 0 4095 10) 100 3900)
               {| min := 100; max := 140; hysteresis := 40 |}).
  specialize (Hclaim st 0 c [(ESP_OK, replicate 10 (sample 6 50))] 0 0 50).
  assert (H50 : 100 <= 50 <= 3900).
  { apply Hclaim; vm_compute; intuition congruence. }
  lia.
Qed.

(** C2, evaluated on the code. After start-up with the reference
    configuration the window of channel 0 is [0, 40]; a reading of 2000
    moves it to [1980, 2020], and a following reading of 5 leaves
    window_min = 4294967281 above window_max = 25: [running_hyst] does not
    preserve window_min <= window_max. *)
Theorem low_reading_inverts_window :
  let st0 := started in
  let st1 := task_adc [(ESP_OK, [sample 6 2000])] st0 in
  let st2 := task_adc [(ESP_OK, [sample 6 5])] st1 in
  (r_hyst <$> channel_data st0 !! 0%nat)
    = Some {| min := 0; max := 40; hysteresis := 40 |} /\
  (r_hyst <$> channel_data st1 !! 0%nat)
    = Some {| min := 1980; max := 2020; hysteresis := 40 |} /\
  (r_hyst <$> channel_data st2 !! 0%nat)
    = Some {| min := 4294967281; max := 25; hysteresis := 40 |} /\
  ~ (4294967281 <= 25).
Proof. repeat split; try reflexivity. lia. Qed.

(** C3, evaluated on the code. With the window [1980, 2020], width 40 and
    calibration [0, 4095], a reading of 5 sets window_min to 4294967281,
    the wrapped value of 5 - 20, and window_max to 25, where ordinary
    arithmetic gives max(5 - 20, 0) = 0 and min(0 + 40, 4095) = 40. *)
Theorem downward_slide_borrows :
  let cd := [channel_with 1980 2020 40 0 4095 10] in
  running_hyst 0 5 cd
    = ([channel_with 4294967281 25 40 0 4095 10], 5) /\
  Z.max (5 - 40 / 2) 0 = 0 /\
  Z.min (Z.max (5 - 40 / 2) 0 + 40) 4095 = 40.
Proof. repeat split; reflexivity. Qed.

(** C4. On a valid channel, a reading inside [window_min, window_max] is
    answered by the midpoint window_min + (window_max - window_min) / 2 and
    leaves the window (the whole channel table) unchanged, so a second
    reading inside the window gets the same answer. *)
Theorem running_hyst_hold `{cfg : Kconfig}
  (channel : Z) (cd : list adc_channel_data_t) (c : adc_channel_data_t)
  (x x' : Z) :
  0 <= channel < ADC_MAX_CHANNELS ->
  cd !! Z.to_nat channel = Some c ->
  is_u32 (min (r_hyst c)) -> is_u32 (max (r_hyst c)) ->
  min (r_hyst c) <= x <= max (r_hyst c) ->
  min (r_hyst c) <= x' <= max (r_hyst c) ->
  let mid := min (r_hyst c) + (max (r_hyst c) - min (r_hyst c)) / 2 in
  running_hyst channel x cd = (cd, mid) /\
  running_hyst channel x' (fst (running_hyst channel x cd)) = (cd, mid).
Proof.
  intros Hch Hc Hlo Hhi Hx Hx'. cbv zeta.
  assert (Hone : forall y, min (r_hyst c) <= y <= max (r_hyst c) ->
            running_hyst channel y cd
            = (cd, min (r_hyst c) + (max (r_hyst c) - min (r_hyst c)) / 2)).
  { intros y Hy. rewrite (running_hyst_valid channel y cd c Hch Hc).
    rewrite (running_hyst_at_hold _ _ _ _ Hlo Hhi Hy). simpl.
    rewrite set_r_hyst_same. rewrite list_insert_id by exact Hc. reflexivity. }
  split.
  - apply Hone. exact Hx.
  - rewrite (Hone x Hx). simpl. apply Hone. exact Hx'.
Qed.

Lemma running_hyst_hold_2010 :
  let cd := [channel_with 1980 2020 40 0 4095 10] in
  running_hyst 0 2010 cd = (cd, 2000) /\
  running_hyst 0 1985 (fst (running_hyst 0 2010 cd)) = (cd, 2000).
Proof.
  apply (running_hyst_hold (cfg := sdkconfig) 0
           [channel_with 1980 2020 40 0 4095 10]
           (channel_with 1980 2020 40 0 4095 10) 2010 1985);
    ground.
Defined.

(** C5. On a valid channel, a reading x (12 bits) above window_max sets
    window_max to min(x + width / 2, calibration.max), window_min to
    window_max - width when window_max > width and to 0 otherwise, and is
    returned unmodified. *)
Theorem running_hyst_slide_up `{cfg : Kconfig}
  (channel : Z) (cd : list adc_channel_data_t) (c : adc_channel_data_t)
  (x : Z) :
  0 <= channel < ADC_MAX_CHANNELS ->
  cd !! Z.to_nat channel = Some c ->
  is_u32 (hysteresis (r_hyst c)) -> is_u32 (max_cal c) ->
  0 <= x < 2 ^ 12 ->
  max (r_hyst c) < x ->
  let width := hysteresis (r_hyst c) in
  let top := Z.min (x + width / 2) (max_cal c) in
  running_hyst channel x cd =
    (<[Z.to_nat channel :=
         set_r_hyst c {| min := if top >? width then top - width else 0;
                         max := top; hysteresis := width |}]> cd, x).
Proof.
  intros Hch Hc Hw Hhi Hx Hup. cbv zeta.
  rewrite (running_hyst_valid channel x cd c Hch Hc).
  pose proof (half_u32 _ Hw) as Hhalf.
  assert (H12 : 2 ^ 12 = 4096) by reflexivity.
  assert (H31 : 2 ^ 31 = 2147483648) by reflexivity.
  rewrite running_hyst_at_up by (try assumption; rewrite ?pow2_32; lia).
  reflexivity.
Qed.

Lemma running_hyst_slide_up_2000 :
  running_hyst 0 2000 [channel_with 0 40 40 0 4095 10]
  = ([channel_with 1980 2020 40 0 4095 10], 2000).
Proof.
  apply (running_hyst_slide_up (cfg := sdkconfig) 0
           [channel_with 0 40 40 0 4095 10]
           (channel_with 0 40 40 0 4095 10) 2000);
    ground.
Defined.

(** C6. On a valid channel with a well-formed averaging state and
    1 <= K <= 256 slots, [running_average] writes the input into the slot
    at the cursor, advances the cursor modulo K, and returns the truncated
    arithmetic mean of the K slots. *)
Theorem running_average_mean `{cfg : Kconfig}
  (channel : Z) (cd : list adc_channel_data_t) (c : adc_channel_data_t)
  (y : Z) :
  0 < RUNNING_AVG_SIZE <= 256 ->
  0 <= channel < ADC_MAX_CHANNELS ->
  cd !! Z.to_nat channel = Some c ->
  avg_wf (r_avg c) -> is_u32 y ->
  let slots := <[Z.to_nat (ptr (r_avg c)) := y]> (queue (r_avg c)) in
  running_average channel y cd =
    (<[Z.to_nat channel :=
         set_r_avg c {| queue := slots;
                        ptr := (ptr (r_avg c) + 1) mod RUNNING_AVG_SIZE |}]> cd,
     Zsum slots / RUNNING_AVG_SIZE) /\
  Z.of_nat (length slots) = RUNNING_AVG_SIZE.
Proof.
  intros Hk Hch Hc Hwf Hy. cbv zeta.
  assert (Hlen : Z.of_nat (length (<[Z.to_nat (ptr (r_avg c)) := y]> (queue (r_avg c))))
                 = RUNNING_AVG_SIZE).
  { rewrite length_insert. destruct Hwf as (Hl & _ & _). rewrite Hl. lia. }
  split; [ | exact Hlen].
  rewrite (running_average_valid channel y cd c Hch Hc).
  rewrite (running_average_at_mean (r_avg c) y Hk Hwf Hy). simpl.
  unfold mean. rewrite Hlen. reflexivity.
Qed.

Lemma running_average_first_2000 :
  running_average 0 2000 [channel_with 0 40 40 0 4095 10]
  = ([set_r_avg (channel_with 0 40 40 0 4095 10)
        {| queue := 2000 :: replicate 9 0; ptr := 1 |}],
     (2000 + 0 * 9) / 10) /\
  Z.of_nat (length (2000 :: replicate 9 0)) = 10.
Proof.
  apply (running_average_mean (cfg := sdkconfig) 0
           [channel_with 0 40 40 0 4095 10]
           (channel_with 0 40 40 0 4095 10) 2000);
    ground.
Defined.

(** C7. Under the same conditions, the value [running_average] returns lies
    between the least and the greatest of the K values in the channel's
    buffer after the write. *)
Theorem running_average_between `{cfg : Kconfig}
  (channel : Z) (cd : list adc_channel_data_t) (c : adc_channel_data_t)
  (y : Z) :
  0 < RUNNING_AVG_SIZE <= 256 ->
  0 <= channel < ADC_MAX_CHANNELS ->
  cd !! Z.to_nat channel = Some c ->
  avg_wf (r_avg c) -> is_u32 y ->
  exists c',
    fst (running_average channel y cd) !! Z.to_nat channel = Some c' /\
    Z.of_nat (length (queue (r_avg c'))) = RUNNING_AVG_SIZE /\
    queue_min (queue (r_avg c')) <= snd (running_average channel y cd)
      <= queue_max (queue (r_avg c')).
Proof.
  intros Hk Hch Hc Hwf Hy.
  rewrite (running_average_valid channel y cd c Hch Hc).
  rewrite (running_average_at_mean (r_avg c) y Hk Hwf Hy). simpl.
  eexists. split.
  - apply list_lookup_insert_eq. apply lookup_lt_is_Some. eauto.
  - simpl. destruct Hwf as (Hl & _ & _).
    set (q := <[Z.to_nat (ptr (r_avg c)) := y]> (queue (r_avg c))).
    assert (Hlen : length q = Z.to_nat RUNNING_AVG_SIZE)
      by (unfold q; rewrite length_insert; exact Hl).
    split; [lia | ].
    apply mean_bounds.
    + intros E. rewrite E in Hlen. simpl in Hlen. lia.
    + apply queue_min_max.
Qed.

Lemma running_average_between_0_2000 :
  exists c',
    fst (running_average 0 2000 [channel_with 0 40 40 0 4095 10]) !! 0%nat
      = Some c' /\
    Z.of_nat (length (queue (r_avg c'))) = 10 /\
    queue_min (queue (r_avg c'))
      <= snd (running_average 0 2000 [channel_with 0 40 40 0 4095 10])
      <= queue_max (queue (r_avg c')).
Proof.
  apply (running_average_between (cfg := sdkconfig) 0
           [channel_with 0 40 40 0 4095 10]
           (channel_with 0 40 40 0 4095 10) 2000);
    ground.
Defined.

(** C8, as amended. [adc_get_raw] and [adc_get_normalized] wait for the
    mutex as long as the caller says; the four other operations have no
    such parameter and wait 100 ms. An operation with accepted arguments
    that does not obtain the mutex within the time it waits returns
    [ESP_ERR_TIMEOUT], which differs from [ESP_ERR_INVALID_ARG]. *)
Theorem lock_timeout `{cfg : Kconfig}
  (op : accessor) (channel wait free_after : Z) (nvs_res : esp_err_t)
  (st : adc_t) :
  accepted op channel ->
  lock_budget op wait < free_after ->
  accessor_call op channel wait free_after nvs_res st = ESP_ERR_TIMEOUT /\
  ESP_ERR_TIMEOUT <> ESP_ERR_INVALID_ARG.
Proof.
  intros [Hch Hargs] Hbusy. split; [ | discriminate].
  assert (Hlt : (channel <? ADC_MAX_CHANNELS) = true) by (apply Z.ltb_lt; lia).
  destruct op as [ | | | | lo hi | width]; simpl in Hbusy |- *;
    unfold adc_get_raw, adc_get_normalized, adc_get_calibration,
           adc_get_hysteresis, adc_set_calibration, adc_set_hysteresis,
           chk_chn, xSemaphoreTake;
    rewrite Hlt; simpl.
  - assert (Hb : (free_after <=? wait) = false) by (apply Z.leb_gt; lia).
    rewrite Hb. reflexivity.
  - assert (Hb : (free_after <=? wait) = false) by (apply Z.leb_gt; lia).
    rewrite Hb. reflexivity.
  - assert (Hb : (free_after <=? pdMS_TO_TICKS 100) = false)
      by (apply Z.leb_gt; lia).
    rewrite Hb. reflexivity.
  - assert (Hb : (free_after <=? pdMS_TO_TICKS 100) = false)
      by (apply Z.leb_gt; lia).
    rewrite Hb. reflexivity.
  - assert (Hb : (free_after <=? pdMS_TO_TICKS 100) = false)
      by (apply Z.leb_gt; lia).
    assert (H1 : (lo >=? hi) = false) by (rewrite Z.geb_leb; apply Z.leb_gt; lia).
    assert (H2 : (hi >? ADC_MAX) = false) by (rewrite Z.gtb_ltb; apply Z.ltb_ge; lia).
    rewrite H1, H2, Hb. reflexivity.
  - assert (Hb : (free_after <=? pdMS_TO_TICKS 100) = false)
      by (apply Z.leb_gt; lia).
    assert (H1 : (width =? 0) = false) by (apply Z.eqb_neq; lia).
    assert (H2 : (width >? 1000) = false) by (rewrite Z.gtb_ltb; apply Z.ltb_ge; lia).
    rewrite H1, H2, Hb. reflexivity.
Qed.

Lemma lock_timeout_set_calibration :
  accessor_call (Set_calibration 100 3900) 0 0 11 ESP_OK started
    = ESP_ERR_TIMEOUT /\
  ESP_ERR_TIMEOUT <> ESP_ERR_INVALID_ARG.
Proof.
  apply (lock_timeout (cfg := sdkconfig) (Set_calibration 100 3900) 0 0 11
           ESP_OK started);
    ground.
Defined.

(** C8, as stated, fails: [adc_get_calibration] cannot be given a budget;
    a caller ready to wait 0 ticks, with the mutex held for 5 more ticks,
    gets [ESP_OK] after the wait instead of a timeout. *)
Lemma get_calibration_ignores_budget : ~ @caller_budget_honoured sdkconfig.
Proof.
  intros Hclaim.
  specialize (Hclaim Get_calibration 0 0 5 ESP_OK started).
  assert (Hres : accessor_call Get_calibration 0 0 5 ESP_OK started = ESP_OK)
    by reflexivity.
  rewrite Hres in Hclaim.
  assert (Habs : ESP_OK = ESP_ERR_TIMEOUT)
    by (apply Hclaim; vm_compute; intuition congruence).
  discriminate Habs.
Qed.

(** C9. Each of the six operations of the accessor API, called with a
    channel index at or above the configured channel count, returns
    [ESP_ERR_INVALID_ARG] (never [ESP_ERR_TIMEOUT]) and leaves the whole
    state unchanged, trace included: no attempt to take the mutex is made. *)
Theorem invalid_channel_rejected `{cfg : Kconfig}
  (channel : Z) (v v' : pointer) (wait free_after : Z) (nvs_res : esp_err_t)
  (lo hi width : Z) (st : adc_t) :
  ADC_MAX_CHANNELS <= channel ->
  adc_get_raw channel v wait free_after st
    = (ESP_ERR_INVALID_ARG, None, st) /\
  adc_get_normalized channel v wait free_after st
    = (ESP_ERR_INVALID_ARG, None, st) /\
  adc_get_calibration channel v v' free_after st
    = (ESP_ERR_INVALID_ARG, None, st) /\
  adc_get_hysteresis channel v free_after st
    = (ESP_ERR_INVALID_ARG, None, st) /\
  adc_set_calibration channel lo hi free_after nvs_res st
    = (ESP_ERR_INVALID_ARG, st) /\
  adc_set_hysteresis channel width free_after nvs_res st
    = (ESP_ERR_INVALID_ARG, st) /\
  ESP_ERR_INVALID_ARG <> ESP_ERR_TIMEOUT.
Proof.
  intros Hch.
  assert (Hge : (channel <? ADC_MAX_CHANNELS) = false) by (apply Z.ltb_ge; lia).
  unfold adc_get_raw, adc_get_normalized, adc_get_calibration,
         adc_get_hysteresis, adc_set_calibration, adc_set_hysteresis, chk_chn.
  rewrite Hge. simpl. repeat split; try reflexivity. discriminate.
Qed.

Lemma invalid_channel_rejected_4 :
  adc_get_raw 4 Addr 10 1000 started = (ESP_ERR_INVALID_ARG, None, started) /\
  adc_get_normalized 4 Addr 10 1000 started
    = (ESP_ERR_INVALID_ARG, None, started) /\
  adc_get_calibration 4 Addr Addr 1000 started
    = (ESP_ERR_INVALID_ARG, None, started) /\
  adc_get_hysteresis 4 Addr 1000 started
    = (ESP_ERR_INVALID_ARG, None, started) /\
  adc_set_calibration 4 100 3900 1000 ESP_OK started
    = (ESP_ERR_INVALID_ARG, started) /\
  adc_set_hysteresis 4 50 1000 ESP_OK started
    = (ESP_ERR_INVALID_ARG, started) /\
  ESP_ERR_INVALID_ARG <> ESP_ERR_TIMEOUT.
Proof.
  apply (invalid_channel_rejected (cfg := sdkconfig) 4 Addr Addr 10 1000
           ESP_OK 100 3900 50 started).
  vm_compute. congruence.
Defined.

(** C10. [adc_set_calibration] with min >= max, or with max above 2^12,
    returns [ESP_ERR_INVALID_ARG] and leaves the state unchanged: the
    calibration bounds and the hysteresis window of every channel are as
    before. *)
Theorem adc_set_calibration_rejects `{cfg : Kconfig}
  (channel lo hi free_after : Z) (nvs_res : esp_err_t) (st : adc_t) :
  hi <= lo \/ 2 ^ 12 < hi ->
  adc_set_calibration channel lo hi free_after nvs_res st
    = (ESP_ERR_INVALID_ARG, st) /\
  ESP_ERR_INVALID_ARG <> ESP_OK.
Proof.
  intros Hbad. split; [ | discriminate]. unfold adc_set_calibration.
  assert (Hc : (lo >=? hi) || (hi >? ADC_MAX) = true).
  { apply orb_true_iff. rewrite Z.geb_leb, Z.gtb_ltb, Z.leb_le, Z.ltb_lt.
    rewrite ADC_MAX_value. change (2 ^ 12) with 4096 in Hbad. lia. }
  rewrite <- orb_assoc, Hc, orb_true_r. reflexivity.
Qed.

Lemma adc_set_calibration_rejects_equal :
  adc_set_calibration 0 3000 3000 0 ESP_OK started
    = (ESP_ERR_INVALID_ARG, started) /\
  ESP_ERR_INVALID_ARG <> ESP_OK.
Proof.
  apply (adc_set_calibration_rejects (cfg := sdkconfig) 0 3000 3000 0 ESP_OK
           started).
  left. vm_compute. congruence.
Defined.

(** * Further properties of the driver *)

(** ** The buffer as a sliding window *)

Lemma Zsum_app (l k : list Z) : Zsum (l ++ k) = Zsum l + Zsum k.
Proof. induction l as [ | v l IH]; simpl; [reflexivity | rewrite IH; ring]. Qed.

Lemma Zsum_rotate (q : list Z) (p : nat) :
  Zsum (drop p q ++ take p q) = Zsum q.
Proof.
  rewrite Zsum_app, Z.add_comm, <- Zsum_app, take_drop. reflexivity.
Qed.

(** Writing at the cursor and moving it on drops the oldest slot of the
    window and appends the new value. *)
Lemma rotate_insert (q : list Z) (p : nat) (y : Z) :
  (p < length q)%nat ->
  let q' := <[p := y]> q in
  let p' := if decide (S p = length q) then O else S p in
  drop p' q' ++ take p' q' = tail (drop p q ++ take p q) ++ [y].
Proof.
  intros Hp. cbv zeta.
  destruct (lookup_lt_is_Some_2 q p Hp) as [v Hv].
  rewrite (insert_take_drop q p y Hp).
  assert (Hlen : length (take p q) = p) by (apply length_take_le; lia).
  rewrite (drop_S q v p Hv). simpl.
  destruct (decide (S p = length q)) as [Hlast | Hmid].
  - rewrite drop_0. simpl. rewrite drop_ge by lia. rewrite app_nil_r.
    reflexivity.
  - replace (take p q ++ y :: drop (S p) q)
      with ((take p q ++ [y]) ++ drop (S p) q)
      by (rewrite <- app_assoc; reflexivity).
    assert (Hlen' : length (take p q ++ [y]) = S p)
      by (rewrite length_app, Hlen; simpl; lia).
    rewrite drop_app_length' by (symmetry; exact Hlen').
    rewrite take_app_length' by (symmetry; exact Hlen').
    rewrite app_assoc. reflexivity.
Qed.

Section SlidingWindow.
Context `{cfg : Kconfig}.

Lemma window_of_length avg :
  avg_wf avg -> length (window_of avg) = Z.to_nat RUNNING_AVG_SIZE.
Proof.
  intros (Hlen & Hptr & _). unfold window_of.
  rewrite length_app, length_drop, length_take_le by lia. lia.
Qed.

Lemma running_average_at_window avg y :
  0 < RUNNING_AVG_SIZE <= 256 -> avg_wf avg -> is_u32 y ->
  window_of (fst (running_average_at avg y)) = tail (window_of avg) ++ [y] /\
  snd (running_average_at avg y) = mean (tail (window_of avg) ++ [y]).
Proof.
  intros Hk Hwf Hy.
  rewrite (running_average_at_mean avg y Hk Hwf Hy). simpl.
  destruct Hwf as (Hlen & Hptr & Hq).
  assert (Hp : (Z.to_nat (ptr avg) < length (queue avg))%nat) by lia.
  pose proof (rotate_insert (queue avg) (Z.to_nat (ptr avg)) y Hp) as Hrot.
  cbv zeta in Hrot.
  assert (Hcur : Z.to_nat ((ptr avg + 1) mod RUNNING_AVG_SIZE)
                 = if decide (S (Z.to_nat (ptr avg)) = length (queue avg))
                   then O else S (Z.to_nat (ptr avg))).
  { destruct (decide (S (Z.to_nat (ptr avg)) = length (queue avg))) as [E | E].
    - replace (ptr avg + 1) with RUNNING_AVG_SIZE by lia.
      rewrite Z.mod_same by lia. reflexivity.
    - rewrite Z.mod_small by lia. lia. }
  assert (Hwin : window_of
            {| queue := <[Z.to_nat (ptr avg) := y]> (queue avg);
               ptr := (ptr avg + 1) mod RUNNING_AVG_SIZE |}
          = tail (window_of avg) ++ [y]).
  { unfold window_of. simpl. rewrite Hcur. exact Hrot. }
  split; [exact Hwin | ].
  rewrite <- Hwin. unfold mean, window_of. simpl.
  rewrite Zsum_rotate.
  rewrite length_app, length_drop, length_take, length_insert.
  f_equal. f_equal. lia.
Qed.

Lemma tail_drop {A} (l : list A) : tail l = drop 1 l.
Proof. destruct l; reflexivity. Qed.

(** After any number of calls the window is made of the last
    [RUNNING_AVG_SIZE] values among the old slots and the inputs. *)
Lemma feed_average_window channel inputs cd c :
  0 < RUNNING_AVG_SIZE <= 256 ->
  0 <= channel < ADC_MAX_CHANNELS ->
  cd !! Z.to_nat channel = Some c ->
  avg_wf (r_avg c) -> Forall is_u32 inputs ->
  exists c',
    fst (feed_average channel inputs cd) !! Z.to_nat channel = Some c' /\
    avg_wf (r_avg c') /\
    window_of (r_avg c')
      = drop (length inputs) (window_of (r_avg c) ++ inputs) /\
    (inputs <> [] ->
     snd (feed_average channel inputs cd) = mean (window_of (r_avg c'))).
Proof.
  intros Hk Hch Hc Hwf. unfold feed_average.
  induction inputs as [ | y ys IH] using rev_ind; intros Hin.
  - exists c. simpl. rewrite drop_0, app_nil_r.
    split; [exact Hc | ]. split; [exact Hwf | ]. split; [reflexivity | ].
    intros Hne. destruct (Hne eq_refl).
  - apply Forall_app in Hin. destruct Hin as [Hys Hy].
    apply Forall_cons_1 in Hy. destruct Hy as [Hy _].
    destruct (IH Hys) as (c1 & Hc1 & Hwf1 & Hwin1 & _).
    rewrite foldl_snoc.
    set (r := foldl (fun acc y0 => running_average channel y0 (fst acc))
                    (cd, 0) ys) in *.
    rewrite (running_average_valid channel y (fst r) c1 Hch Hc1).
    destruct (running_average_at_window (r_avg c1) y Hk Hwf1 Hy) as [Hw Hout].
    exists (set_r_avg c1 (fst (running_average_at (r_avg c1) y))).
    unfold set_r_avg. cbn [fst snd r_avg]. split.
    { apply list_lookup_insert_eq. apply lookup_lt_is_Some. eauto. }
    split; [apply avg_wf_step; assumption | ].
    split.
    + rewrite Hw, Hwin1, tail_drop, drop_drop.
      pose proof (window_of_length _ Hwf) as Hl.
      rewrite length_app. simpl.
      rewrite (app_assoc (window_of (r_avg c)) ys [y]).
      rewrite (drop_app_le (window_of (r_avg c) ++ ys) [y])
        by (rewrite length_app; lia).
      reflexivity.
    + intros _. rewrite Hout, Hw. reflexivity.
Qed.

End SlidingWindow.

(** X1. On a valid channel with a well-formed buffer, once the last K
    calls of [running_average] have been made, the value returned is the
    truncated mean of the inputs of those K calls, whatever the buffer held
    before: the zero-filled slots of start-up no longer count. *)
Theorem running_average_last_inputs `{cfg : Kconfig}
  (channel : Z) (pre last : list Z) (cd : list adc_channel_data_t)
  (c : adc_channel_data_t) :
  0 < RUNNING_AVG_SIZE <= 256 ->
  0 <= channel < ADC_MAX_CHANNELS ->
  cd !! Z.to_nat channel = Some c ->
  avg_wf (r_avg c) ->
  Forall is_u32 pre -> Forall is_u32 last ->
  length last = Z.to_nat RUNNING_AVG_SIZE ->
  snd (feed_average channel (pre ++ last) cd) = mean last.
Proof.
  intros Hk Hch Hc Hwf Hpre Hlast Hlen.
  assert (Hin : Forall is_u32 (pre ++ last)) by (apply Forall_app; auto).
  destruct (feed_average_window channel (pre ++ last) cd c Hk Hch Hc Hwf Hin)
    as (c' & _ & _ & Hwin & Hout).
  rewrite Hout.
  - rewrite Hwin. f_equal.
    pose proof (window_of_length _ Hwf) as Hl.
    rewrite app_assoc. apply drop_app_length'.
    rewrite !length_app. lia.
  - intros E. apply (f_equal length) in E. rewrite length_app in E.
    simpl in E. lia.
Qed.

Lemma running_average_last_inputs_ramp :
  snd (feed_average 0
         ([7; 4000] ++ [100; 200; 300; 400; 500; 600; 700; 800; 900; 1005])
         [channel_with 0 40 40 0 4095 10])
  = mean [100; 200; 300; 400; 500; 600; 700; 800; 900; 1005].
Proof.
  apply (running_average_last_inputs (cfg := sdkconfig) 0 [7; 4000]
           [100; 200; 300; 400; 500; 600; 700; 800; 900; 1005]
           [channel_with 0 40 40 0 4095 10]
           (channel_with 0 40 40 0 4095 10));
    ground.
Defined.

(** ** The channel table *)

Section ChannelTable.
Context `{cfg : Kconfig}.

Lemma physical_channels_values ch :
  In (Z.land (physical_channels ch) 7) [6; 7; 4; 5; 0; 3].
Proof.
  unfold physical_channels.
  destruct (Z.to_nat ch) as [ | [ | [ | [ | [ | [ | [ | n]]]]]]]; simpl; tauto.
Qed.

Lemma find_channel_unknown n ch pch :
  ~ In pch [6; 7; 4; 5; 0; 3] -> find_channel n ch pch = None.
Proof.
  intros Hout. revert ch. induction n as [ | n IH]; intros ch; simpl.
  - reflexivity.
  - destruct (Z.eqb_spec (Z.land (physical_channels ch) 7) pch) as [E | E].
    + exfalso. apply Hout. rewrite <- E. apply physical_channels_values.
    + apply IH.
Qed.

Lemma find_channel_table (n : nat) (ch : Z) :
  (n <= 6)%nat -> 0 <= ch < Z.of_nat n ->
  find_channel n 0 (Z.land (physical_channels ch) 7) = Some ch.
Proof.
  intros Hn Hch.
  assert (Hcases : ch = 0 \/ ch = 1 \/ ch = 2 \/ ch = 3 \/ ch = 4 \/ ch = 5)
    by lia.
  destruct n as [ | [ | [ | [ | [ | [ | [ | n]]]]]]]; try lia;
    destruct Hcases as [-> | [-> | [-> | [-> | [-> | ->]]]]]; try lia;
    reflexivity.
Qed.

Lemma process_sample_errors p free_after st :
  errors (process_sample p free_after st) = errors st.
Proof.
  unfold process_sample.
  destruct (find_channel _ _ _) as [ch | ]; [ | reflexivity].
  unfold xSemaphoreTake.
  destruct (free_after <=? pdMS_TO_TICKS 10); [ | reflexivity].
  destruct (running_hyst ch (type1_data p) _) as [cd2 h].
  destruct (running_average ch h cd2) as [cd3 a]. reflexivity.
Qed.

Lemma process_sample_busy p free_after st :
  pdMS_TO_TICKS 10 < free_after ->
  channel_data (process_sample p free_after st) = channel_data st.
Proof.
  intros Hbusy. unfold process_sample.
  destruct (find_channel _ _ _) as [ch | ]; [ | reflexivity].
  unfold xSemaphoreTake.
  assert (Hb : (free_after <=? pdMS_TO_TICKS 10) = false)
    by (apply Z.leb_gt; lia).
  rewrite Hb. reflexivity.
Qed.

End ChannelTable.

(** X2. With at most six configured channels, the scan of [task_adc] maps
    the physical input of every logical channel back to that channel: a
    reading of input [physical_channels[ch] & 7] that finds the mutex free
    is stored as the raw value of channel [ch] itself. *)
Theorem reading_reaches_its_channel `{cfg : Kconfig}
  (ch data free_after : Z) (st : adc_t) (c : adc_channel_data_t) :
  ADC_MAX_CHANNELS <= 6 ->
  0 <= ch < ADC_MAX_CHANNELS ->
  channel_data st !! Z.to_nat ch = Some c ->
  free_after <= pdMS_TO_TICKS 10 ->
  let p := {| type1_data := data;
              type1_channel := Z.land (physical_channels ch) 7 |} in
  addressed_to ch p /\
  exists c',
    channel_data (process_sample p free_after st) !! Z.to_nat ch = Some c' /\
    raw_value c' = data.
Proof.
  intros Hn Hch Hc Hfree. cbv zeta.
  assert (Hfind : find_channel (Z.to_nat ADC_MAX_CHANNELS) 0
                    (Z.land (physical_channels ch) 7) = Some ch)
    by (apply find_channel_table; lia).
  split; [exact Hfind | ].
  unfold process_sample. simpl. rewrite Hfind. unfold xSemaphoreTake.
  assert (Hb : (free_after <=? pdMS_TO_TICKS 10) = true)
    by (apply Z.leb_le; lia).
  rewrite Hb.
  pose proof (critical_section_matched ch data (channel_data st) c Hch Hc)
    as Hm.
  cbv zeta in Hm.
  destruct (running_hyst ch data _) as [cd2 h] eqn:E2.
  simpl in Hm.
  destruct (running_average ch h cd2) as [cd3 a] eqn:E3.
  simpl in Hm. simpl.
  exists (sample_update c data). split; [exact Hm | reflexivity].
Qed.

Lemma reading_reaches_its_channel_2 :
  addressed_to 2 {| type1_data := 1234; type1_channel := 4 |} /\
  exists c',
    channel_data
      (process_sample {| type1_data := 1234; type1_channel := 4 |} 0 started)
      !! 2%nat = Some c' /\
    raw_value c' = 1234.
Proof.
  apply (reading_reaches_its_channel (cfg := sdkconfig) 2 1234 0 started
           (channel_with 0 40 40 0 4095 10));
    ground.
Defined.

(** X3. A reading whose input number is none of 6, 7, 4, 5, 0, 3 belongs
    to no channel: [process_sample] returns the state as it was, with no
    attempt on the mutex and no counter changed. *)
Theorem unknown_input_dropped `{cfg : Kconfig}
  (p : adc_digi_output_data_t) (free_after : Z) (st : adc_t) :
  ~ In (type1_channel p) [6; 7; 4; 5; 0; 3] ->
  process_sample p free_after st = st.
Proof.
  intros Hout. unfold process_sample.
  rewrite find_channel_unknown by exact Hout. reflexivity.
Qed.

Lemma unknown_input_dropped_1 :
  process_sample {| type1_data := 999; type1_channel := 1 |} 0 started
  = started.
Proof.
  apply (unknown_input_dropped (cfg := sdkconfig)).
  vm_compute. intuition congruence.
Defined.

(** ** Runs of the task: isolation and counters *)

Section Runs.
Context `{cfg : Kconfig}.

Lemma process_sample_untouched p free_after st channel :
  0 <= channel ->
  (addressed_to channel p -> pdMS_TO_TICKS 10 < free_after) ->
  channel_data (process_sample p free_after st) !! Z.to_nat channel
  = channel_data st !! Z.to_nat channel.
Proof.
  intros Hch Hno.
  destruct (Z_lt_le_dec (pdMS_TO_TICKS 10) free_after) as [Hbusy | Hfree].
  { rewrite process_sample_busy by exact Hbusy. reflexivity. }
  unfold process_sample.
  destruct (find_channel (Z.to_nat ADC_MAX_CHANNELS) 0 (type1_channel p))
    as [ch | ] eqn:Hfind; [ | reflexivity].
  pose proof (addressed_to_valid ch p Hfind) as Hchv.
  assert (Hne : ch <> channel).
  { intros ->. specialize (Hno Hfind). lia. }
  unfold xSemaphoreTake.
  destruct (free_after <=? pdMS_TO_TICKS 10); [ | reflexivity].
  assert (Hn : Z.to_nat channel <> Z.to_nat ch) by lia.
  pose proof (critical_section_other ch channel (type1_data p)
                (channel_data st) Hn) as Hm.
  cbv zeta in Hm.
  destruct (running_hyst ch (type1_data p) _) as [cd2 h] eqn:E2.
  simpl in Hm.
  destruct (running_average ch h cd2) as [cd3 a] eqn:E3.
  simpl in Hm. simpl. exact Hm.
Qed.

Lemma samples_untouched channel
  (samples : list (adc_digi_output_data_t * Z)) :
  0 <= channel ->
  Forall (fun ps => addressed_to channel (fst ps) ->
                    pdMS_TO_TICKS 10 < snd ps) samples ->
  forall st,
    channel_data (foldl (fun s ps => process_sample (fst ps) (snd ps) s)
                        st samples) !! Z.to_nat channel
    = channel_data st !! Z.to_nat channel.
Proof.
  intros Hch. induction 1 as [ | ps samples Hps _ IH]; intros st; simpl.
  - reflexivity.
  - rewrite IH. apply process_sample_untouched; assumption.
Qed.

Lemma samples_errors (samples : list (adc_digi_output_data_t * Z)) st :
  errors (foldl (fun s ps => process_sample (fst ps) (snd ps) s) st samples)
  = errors st.
Proof.
  revert st. induction samples as [ | ps samples IH]; intros st; simpl.
  - reflexivity.
  - rewrite IH. apply process_sample_errors.
Qed.

Lemma u32_succ_add a n : u32 (u32 (a + 1) + n) = u32 (a + (1 + n)).
Proof.
  unfold u32. rewrite Zplus_mod_idemp_l. f_equal. ring.
Qed.

Lemma count_cycles_cons f c cycles :
  count_cycles f (c :: cycles)
  = (if f (fst c) then 1 else 0) + count_cycles f cycles.
Proof.
  unfold count_cycles. rewrite filter_cons.
  destruct (f (fst c)) eqn:E.
  - rewrite decide_True by reflexivity. simpl length. lia.
  - rewrite decide_False by discriminate. lia.
Qed.

End Runs.

(** X4. A run of the task changes the record of a channel only through
    the readings that are addressed to it and obtain the mutex: when every
    reading addressed to the channel finds the mutex busy for more than
    10 ms (the others may go to any channel), the record is left as it
    was. *)
Theorem other_readings_leave_channel `{cfg : Kconfig}
  (channel : Z)
  (cycles : list (esp_err_t * list (adc_digi_output_data_t * Z)))
  (st : adc_t) :
  0 <= channel ->
  Forall (fun cyc =>
    Forall (fun ps => addressed_to channel (fst ps) ->
                      pdMS_TO_TICKS 10 < snd ps) (snd cyc)) cycles ->
  channel_data (task_adc cycles st) !! Z.to_nat channel
  = channel_data st !! Z.to_nat channel.
Proof.
  intros Hch Hall. revert st. unfold task_adc.
  induction Hall as [ | cyc cycles Hcyc _ IH]; intros st; simpl.
  - reflexivity.
  - rewrite IH. unfold task_adc_cycle.
    destruct (fst cyc =? ESP_OK).
    + rewrite samples_untouched by assumption. reflexivity.
    + destruct (fst cyc =? ESP_ERR_TIMEOUT); reflexivity.
Qed.

Lemma other_readings_leave_channel_0 :
  channel_data
    (task_adc [(ESP_OK, [sample 7 3000;
                         ({| type1_data := 2000; type1_channel := 6 |}, 50);
                         sample 4 100]);
               (ESP_OK, [sample 5 4095])] started) !! 0%nat
  = channel_data started !! 0%nat.
Proof.
  apply (other_readings_leave_channel (cfg := sdkconfig) 0).
  - vm_compute. congruence.
  - repeat match goal with
           | |- Forall _ _ => constructor
           | |- _ => progress simpl
           end;
      intros Haddr; vm_compute in Haddr |- *; congruence.
Defined.

(** X5. Over a run of the task that starts with 32-bit counters, the
    counter of conversions grows by the number of successful reads, the
    timeout counter by the number of reads that timed out, the read-error
    counter by the number of other failures (all modulo 2^32), and the
    invalid-channel counter never changes. *)
Theorem counters_after_run `{cfg : Kconfig}
  (cycles : list (esp_err_t * list (adc_digi_output_data_t * Z)))
  (st : adc_t) :
  is_u32 (conversions (errors st)) ->
  is_u32 (timeout (errors st)) ->
  is_u32 (read_errors (errors st)) ->
  let e := errors st in
  let e' := errors (task_adc cycles st) in
  conversions e'
    = u32 (conversions e + count_cycles (fun r => r =? ESP_OK) cycles) /\
  timeout e'
    = u32 (timeout e
           + count_cycles (fun r => negb (r =? ESP_OK) && (r =? ESP_ERR_TIMEOUT))
               cycles) /\
  read_errors e'
    = u32 (read_errors e
           + count_cycles
               (fun r => negb (r =? ESP_OK) && negb (r =? ESP_ERR_TIMEOUT))
               cycles) /\
  invalid_channel e' = invalid_channel e.
Proof.
  cbv zeta. unfold task_adc. revert st.
  induction cycles as [ | cyc cycles IH]; intros st Hc Ht Hr.
  - simpl. unfold count_cycles. simpl. rewrite !Z.add_0_r.
    rewrite !u32_small by assumption. auto.
  - simpl. rewrite !count_cycles_cons.
    set (st1 := task_adc_cycle (fst cyc) (snd cyc) st).
    assert (Hst1 :
      conversions (errors st1)
        = (if fst cyc =? ESP_OK then u32 (conversions (errors st) + 1)
           else conversions (errors st)) /\
      timeout (errors st1)
        = (if negb (fst cyc =? ESP_OK) && (fst cyc =? ESP_ERR_TIMEOUT)
           then u32 (timeout (errors st) + 1) else timeout (errors st)) /\
      read_errors (errors st1)
        = (if negb (fst cyc =? ESP_OK) && negb (fst cyc =? ESP_ERR_TIMEOUT)
           then u32 (read_errors (errors st) + 1) else read_errors (errors st)) /\
      invalid_channel (errors st1) = invalid_channel (errors st)).
    { unfold st1, task_adc_cycle.
      destruct (fst cyc =? ESP_OK).
      - rewrite samples_errors. simpl. auto.
      - destruct (fst cyc =? ESP_ERR_TIMEOUT); simpl; auto. }
    destruct Hst1 as (H1 & H2 & H3 & H4).
    assert (Hu : forall z, is_u32 (u32 z))
      by (intros z; unfold is_u32, u32; apply Z.mod_pos_bound; reflexivity).
    destruct (IH st1) as (I1 & I2 & I3 & I4).
    { rewrite H1. destruct (fst cyc =? ESP_OK); auto. }
    { rewrite H2. destruct (negb _ && _); auto. }
    { rewrite H3. destruct (negb _ && negb _); auto. }
    rewrite I1, I2, I3, I4, H1, H2, H3, H4.
    repeat split.
    + destruct (fst cyc =? ESP_OK); [apply u32_succ_add | reflexivity].
    + destruct (negb _ && _); [apply u32_succ_add | reflexivity].
    + destruct (negb _ && negb _); [apply u32_succ_add | reflexivity].
Qed.

Lemma counters_after_run_mixed :
  let e' := errors (task_adc [(ESP_OK, [sample 6 2000]); (ESP_ERR_TIMEOUT, []);
                              (ESP_ERR_INVALID_ARG, []); (ESP_OK, [])]
                      started) in
  conversions e' = 2 /\ timeout e' = 1 /\ read_errors e' = 1 /\
  invalid_channel e' = 0.
Proof.
  apply (counters_after_run (cfg := sdkconfig)
           [(ESP_OK, [sample 6 2000]); (ESP_ERR_TIMEOUT, []);
            (ESP_ERR_INVALID_ARG, []); (ESP_OK, [])] started);
    ground.
Defined.

(** ** Start-up and the store *)

Section StartUp.
Context `{cfg : Kconfig}.

Lemma init_channel_at nvs_open nvs_get_u32 cd ch :
  0 <= ch < ADC_MAX_CHANNELS ->
  (Z.to_nat ch < length cd)%nat ->
  init_channel nvs_open nvs_get_u32 cd ch !! Z.to_nat ch
  = Some (init_record nvs_open nvs_get_u32 ch).
Proof.
  intros Hch Hlen. unfold init_channel, load_channel_config, init_record, chk_chn.
  assert (Hlt : (ch <? ADC_MAX_CHANNELS) = true) by (apply Z.ltb_lt; lia).
  rewrite Hlt. simpl.
  destruct (nvs_open =? ESP_OK); simpl.
  - destruct (nvs_get_u32 (NVS_KEY_MIN ch)), (nvs_get_u32 (NVS_KEY_MAX ch)),
      (nvs_get_u32 (NVS_KEY_HYST ch));
      rewrite ?list_lookup_alter_eq, list_lookup_insert_eq by exact Hlen;
      reflexivity.
  - rewrite list_lookup_insert_eq by exact Hlen. reflexivity.
Qed.

Lemma init_channel_other nvs_open nvs_get_u32 cd ch (i : nat) :
  i <> Z.to_nat ch ->
  init_channel nvs_open nvs_get_u32 cd ch !! i = cd !! i.
Proof.
  intros Hne. unfold init_channel, load_channel_config.
  destruct (negb (chk_chn ch)); simpl;
    [apply list_lookup_insert_ne; congruence | ].
  destruct (negb (nvs_open =? ESP_OK)); simpl;
    [apply list_lookup_insert_ne; congruence | ].
  destruct (nvs_get_u32 (NVS_KEY_MIN ch)), (nvs_get_u32 (NVS_KEY_MAX ch)),
    (nvs_get_u32 (NVS_KEY_HYST ch));
    rewrite ?list_lookup_alter_ne by congruence;
    apply list_lookup_insert_ne; congruence.
Qed.

Lemma init_channel_length nvs_open nvs_get_u32 cd ch :
  length (init_channel nvs_open nvs_get_u32 cd ch) = length cd.
Proof.
  unfold init_channel, load_channel_config.
  destruct (negb (chk_chn ch)); simpl; [apply length_insert | ].
  destruct (negb (nvs_open =? ESP_OK)); simpl; [apply length_insert | ].
  destruct (nvs_get_u32 (NVS_KEY_MIN ch)), (nvs_get_u32 (NVS_KEY_MAX ch)),
    (nvs_get_u32 (NVS_KEY_HYST ch));
    rewrite ?length_alter; apply length_insert.
Qed.

(** The loop of [adc_init] over the channels [chs]. *)
Lemma init_loop nvs_open nvs_get_u32 (chs : list nat) :
  forall cd (i : nat),
    Forall (fun k => Z.of_nat k < ADC_MAX_CHANNELS /\ (k < length cd)%nat) chs ->
    length (foldl (fun cd k => init_channel nvs_open nvs_get_u32 cd (Z.of_nat k))
                  cd chs) = length cd /\
    foldl (fun cd k => init_channel nvs_open nvs_get_u32 cd (Z.of_nat k))
          cd chs !! i
    = if decide (i ∈ chs)
      then Some (init_record nvs_open nvs_get_u32 (Z.of_nat i))
      else cd !! i.
Proof.
  induction chs as [ | k chs IH]; intros cd i Hall.
  - cbn [foldl]. split; [reflexivity | ].
    destruct (decide (i ∈ [])) as [Hin | _]; [ | reflexivity].
    exfalso. revert Hin. apply not_elem_of_nil.
  - apply Forall_cons_1 in Hall. destruct Hall as [[Hk Hlen] Hall].
    cbn [foldl].
    assert (Hall' : Forall (fun k0 => Z.of_nat k0 < ADC_MAX_CHANNELS /\
                     (k0 < length (init_channel nvs_open nvs_get_u32 cd
                                     (Z.of_nat k)))%nat) chs).
    { eapply Forall_impl; [exact Hall | ]. simpl. intros k0 [H1 H2].
      rewrite init_channel_length. auto. }
    destruct (IH _ i Hall') as [IHlen IHat].
    split; [rewrite IHlen; apply init_channel_length | ].
    rewrite IHat.
    destruct (decide (i ∈ chs)) as [Hin | Hnin];
      destruct (decide (i ∈ k :: chs)) as [Hin' | Hnin'].
    + reflexivity.
    + exfalso. apply Hnin'. apply elem_of_cons. auto.
    + apply elem_of_cons in Hin'. destruct Hin' as [-> | Hin']; [ | contradiction].
      pose proof (init_channel_at nvs_open nvs_get_u32 cd (Z.of_nat k)) as Hat.
      rewrite Nat2Z.id in Hat. apply Hat; lia.
    + apply init_channel_other. rewrite Nat2Z.id.
      intros ->. apply Hnin'. apply elem_of_cons. auto.
Qed.

Lemma adc_init_channel nvs_open nvs_get_u32 ch :
  0 <= ch < ADC_MAX_CHANNELS ->
  channel_data (adc_init nvs_open nvs_get_u32) !! Z.to_nat ch
  = Some (init_record nvs_open nvs_get_u32 ch) /\
  length (channel_data (adc_init nvs_open nvs_get_u32))
  = Z.to_nat ADC_MAX_CHANNELS.
Proof.
  intros Hch. unfold adc_init. simpl. rewrite foldl_fmap.
  set (n := Z.to_nat ADC_MAX_CHANNELS).
  assert (Hall : Forall (fun k => Z.of_nat k < ADC_MAX_CHANNELS /\
                   (k < length (replicate n zero_channel))%nat) (seq 0 n)).
  { apply Forall_forall. intros k Hk. apply elem_of_seq in Hk.
    rewrite length_replicate. unfold n in *. lia. }
  destruct (init_loop nvs_open nvs_get_u32 (seq 0 n)
              (replicate n zero_channel) (Z.to_nat ch) Hall) as [Hlen Hat].
  split.
  - rewrite Hat.
    destruct (decide (Z.to_nat ch ∈ seq 0 n)) as [_ | Hnin].
    + rewrite Z2Nat.id by lia. reflexivity.
    + exfalso. apply Hnin. apply elem_of_seq. unfold n. lia.
  - rewrite Hlen. apply length_replicate.
Qed.

Lemma nvs_key_eqb_eq a b : nvs_key_eqb a b = true <-> a = b.
Proof.
  destruct a, b; simpl; rewrite ?Z.eqb_eq; split; intros E;
    try discriminate; try congruence.
Qed.

Lemma nvs_set_u32_same store key value :
  nvs_set_u32 store key value key = Some value.
Proof.
  unfold nvs_set_u32.
  assert (E : nvs_key_eqb key key = true) by (apply nvs_key_eqb_eq; reflexivity).
  rewrite E. reflexivity.
Qed.

Lemma nvs_set_u32_other store key value k :
  key <> k -> nvs_set_u32 store key value k = store k.
Proof.
  intros Hne. unfold nvs_set_u32.
  destruct (nvs_key_eqb key k) eqn:E; [ | reflexivity].
  apply nvs_key_eqb_eq in E. contradiction.
Qed.

End StartUp.

(** X6. After [adc_init], every configured channel holds a zero-filled
    buffer with the cursor at 0, raw and filtered values 0, the window
    [default_min, default_min + CONFIG_ADC_HYSTERESIS] of the build
    configuration, and as calibration bounds and width the values of the
    store where it opens and holds them, the defaults otherwise. The
    stored calibration does not move the window. *)
Theorem adc_init_records `{cfg : Kconfig}
  (nvs_open : esp_err_t) (nvs_get_u32 : nvs_key -> option Z) (ch : Z) :
  0 <= ch < ADC_MAX_CHANNELS ->
  exists c,
    channel_data (adc_init nvs_open nvs_get_u32) !! Z.to_nat ch = Some c /\
    c = init_record nvs_open nvs_get_u32 ch /\
    min (r_hyst c) = default 0 (default_mins !! Z.to_nat ch) /\
    max (r_hyst c)
      = u32 (default 0 (default_mins !! Z.to_nat ch) + CONFIG_ADC_HYSTERESIS) /\
    queue (r_avg c) = replicate (Z.to_nat RUNNING_AVG_SIZE) 0 /\
    ptr (r_avg c) = 0 /\
    length (channel_data (adc_init nvs_open nvs_get_u32))
      = Z.to_nat ADC_MAX_CHANNELS.
Proof.
  intros Hch.
  destruct (adc_init_channel nvs_open nvs_get_u32 ch Hch) as [Hat Hlen].
  exists (init_record nvs_open nvs_get_u32 ch).
  repeat split; try assumption; reflexivity.
Qed.

Lemma adc_init_records_stored :
  exists c,
    channel_data
      (adc_init ESP_OK
         (nvs_set_u32 (nvs_set_u32 nvs_empty (NVS_KEY_MIN 1) 1000)
            (NVS_KEY_MAX 1) 3000)) !! 1%nat = Some c /\
    c = {| raw_value := 0; normalized_value := 0;
           r_hyst := {| min := 0; max := 40; hysteresis := 40 |};
           r_avg := {| queue := replicate 10 0; ptr := 0 |};
           min_cal := 1000; max_cal := 3000 |} /\
    min (r_hyst c) = 0 /\ max (r_hyst c) = 40 /\
    queue (r_avg c) = replicate 10 0 /\ ptr (r_avg c) = 0 /\
    length (channel_data
              (adc_init ESP_OK
                 (nvs_set_u32 (nvs_set_u32 nvs_empty (NVS_KEY_MIN 1) 1000)
                    (NVS_KEY_MAX 1) 3000))) = 4%nat.
Proof.
  apply (adc_init_records (cfg := sdkconfig) ESP_OK
           (nvs_set_u32 (nvs_set_u32 nvs_empty (NVS_KEY_MIN 1) 1000)
              (NVS_KEY_MAX 1) 3000) 1).
  vm_compute. intuition congruence.
Defined.

(** X7. What [save_channel_config] writes, the next start-up reads back:
    when the store opens and every NVS call succeeds, the save returns
    [ESP_OK], and [adc_init] on the resulting store gives the channel the
    calibration bounds and the width it had when it was saved. *)
Theorem saved_config_survives_restart `{cfg : Kconfig}
  (channel : Z) (cd : list adc_channel_data_t) (c : adc_channel_data_t)
  (set_res : nvs_key -> esp_err_t) (store : nvs_key -> option Z) :
  0 <= channel < ADC_MAX_CHANNELS ->
  cd !! Z.to_nat channel = Some c ->
  (forall k, set_res k = ESP_OK) ->
  let r := save_channel_config_nvs channel ESP_OK set_res ESP_OK cd store in
  fst r = ESP_OK /\
  exists c',
    channel_data (adc_init ESP_OK (snd r)) !! Z.to_nat channel = Some c' /\
    min_cal c' = min_cal c /\ max_cal c' = max_cal c /\
    hysteresis (r_hyst c') = hysteresis (r_hyst c).
Proof.
  intros Hch Hc Hset. cbv zeta.
  unfold save_channel_config_nvs, chk_chn.
  assert (Hlt : (channel <? ADC_MAX_CHANNELS) = true) by (apply Z.ltb_lt; lia).
  rewrite Hlt, !Hset. simpl. split; [reflexivity | ].
  unfold channel_at. rewrite Hc. simpl.
  destruct (adc_init_channel ESP_OK
              (nvs_set_u32
                 (nvs_set_u32 (nvs_set_u32 store (NVS_KEY_MIN channel) (min_cal c))
                    (NVS_KEY_MAX channel) (max_cal c))
                 (NVS_KEY_HYST channel) (hysteresis (r_hyst c)))
              channel Hch) as [Hat _].
  eexists. split; [exact Hat | ].
  unfold init_record. simpl.
  rewrite nvs_set_u32_same.
  rewrite (nvs_set_u32_other _ (NVS_KEY_HYST channel) _ (NVS_KEY_MIN channel))
    by discriminate.
  rewrite (nvs_set_u32_other _ (NVS_KEY_HYST channel) _ (NVS_KEY_MAX channel))
    by discriminate.
  rewrite nvs_set_u32_same.
  rewrite (nvs_set_u32_other _ (NVS_KEY_MAX channel) _ (NVS_KEY_MIN channel))
    by discriminate.
  rewrite nvs_set_u32_same. simpl. auto.
Qed.

Lemma saved_config_survives_restart_1 :
  let cd := [channel_with 0 40 40 0 4095 10;
             set_r_hyst (set_cal (channel_with 700 760 60 0 0 10) 700 3100)
               {| min := 700; max := 760; hysteresis := 60 |}] in
  let r := save_channel_config_nvs 1 ESP_OK (fun _ => ESP_OK) ESP_OK cd
             nvs_empty in
  fst r = ESP_OK /\
  exists c',
    channel_data (adc_init ESP_OK (snd r)) !! 1%nat = Some c' /\
    min_cal c' = 700 /\ max_cal c' = 3100 /\ hysteresis (r_hyst c') = 60.
Proof.
  apply (saved_config_survives_restart (cfg := sdkconfig) 1
           [channel_with 0 40 40 0 4095 10;
            set_r_hyst (set_cal (channel_with 700 760 60 0 0 10) 700 3100)
              {| min := 700; max := 760; hysteresis := 60 |}]
           (set_r_hyst (set_cal (channel_with 700 760 60 0 0 10) 700 3100)
              {| min := 700; max := 760; hysteresis := 60 |})
           (fun _ => ESP_OK) nvs_empty);
    ground.
Defined.

(** X8. [save_channel_config] writes under the three keys of its own
    channel only: whatever the outcome of the NVS calls, the values stored
    for any other channel are as before. *)
Theorem save_leaves_other_channels `{cfg : Kconfig}
  (channel other : Z) (nvs_open commit_res : esp_err_t)
  (set_res : nvs_key -> esp_err_t) (cd : list adc_channel_data_t)
  (store : nvs_key -> option Z) :
  other <> channel ->
  let store' :=
    snd (save_channel_config_nvs channel nvs_open set_res commit_res cd store) in
  store' (NVS_KEY_MIN other) = store (NVS_KEY_MIN other) /\
  store' (NVS_KEY_MAX other) = store (NVS_KEY_MAX other) /\
  store' (NVS_KEY_HYST other) = store (NVS_KEY_HYST other).
Proof.
  intros Hne. cbv zeta. unfold save_channel_config_nvs.
  destruct (negb (chk_chn channel)); [simpl; auto | ].
  destruct (negb (nvs_open =? ESP_OK)); [simpl; auto | ].
  destruct (negb (set_res (NVS_KEY_MIN channel) =? ESP_OK)); [simpl; auto | ].
  destruct (negb (set_res (NVS_KEY_MAX channel) =? ESP_OK));
    [ | destruct (negb (set_res (NVS_KEY_HYST channel) =? ESP_OK))];
    simpl; repeat split;
    rewrite ?nvs_set_u32_other by congruence; reflexivity.
Qed.

Lemma save_leaves_other_channels_0 :
  let store := nvs_set_u32 nvs_empty (NVS_KEY_MIN 0) 123 in
  let store' :=
    snd (save_channel_config_nvs 1 ESP_OK (fun _ => ESP_OK) ESP_OK
           [channel_with 0 40 40 0 4095 10; channel_with 5 45 40 5 4000 10]
           store) in
  store' (NVS_KEY_MIN 0) = store (NVS_KEY_MIN 0) /\
  store' (NVS_KEY_MAX 0) = store (NVS_KEY_MAX 0) /\
  store' (NVS_KEY_HYST 0) = store (NVS_KEY_HYST 0).
Proof.
  apply (save_leaves_other_channels (cfg := sdkconfig) 1 0 ESP_OK ESP_OK
           (fun _ => ESP_OK)).
  discriminate.
Defined.

(** ** The accessor API: what each call does to the state *)

Section Accessors.
Context `{cfg : Kconfig}.

Lemma adc_set_calibration_done channel lo hi free_after nvs_res st :
  0 <= channel < ADC_MAX_CHANNELS -> lo < hi -> hi <= ADC_MAX ->
  free_after <= pdMS_TO_TICKS 100 ->
  adc_set_calibration channel lo hi free_after nvs_res st
  = (nvs_res,
     {| channel_data :=
          alter (fun c => set_r_hyst (set_cal c lo hi)
                   {| min := lo;
                      max := MIN (u32 (lo + hysteresis (r_hyst c))) hi;
                      hysteresis := hysteresis (r_hyst c) |})
                (Z.to_nat channel) (channel_data st);
        errors := errors st;
        trace := trace st ++ [EvTake (pdMS_TO_TICKS 100) true; EvGive;
                              EvSave channel] |}).
Proof.
  intros Hch Hlo Hhi Hfree.
  unfold adc_set_calibration, chk_chn, xSemaphoreTake, save_channel_config, chk_chn.
  assert (Hlt : (channel <? ADC_MAX_CHANNELS) = true) by (apply Z.ltb_lt; lia).
  assert (H1 : (lo >=? hi) = false) by (rewrite Z.geb_leb; apply Z.leb_gt; lia).
  assert (H2 : (hi >? ADC_MAX) = false) by (rewrite Z.gtb_ltb; apply Z.ltb_ge; lia).
  assert (H3 : (free_after <=? pdMS_TO_TICKS 100) = true) by (apply Z.leb_le; lia).
  rewrite Hlt, H1, H2, H3. simpl. unfold emit. simpl.
  rewrite <- !app_assoc. reflexivity.
Qed.

Lemma adc_set_hysteresis_done channel width free_after nvs_res st :
  0 <= channel < ADC_MAX_CHANNELS -> 1 <= width <= 1000 ->
  free_after <= pdMS_TO_TICKS 100 ->
  adc_set_hysteresis channel width free_after nvs_res st
  = (nvs_res,
     {| channel_data :=
          alter (fun c => set_r_hyst c
                   {| min := min (r_hyst c); max := max (r_hyst c);
                      hysteresis := width |})
                (Z.to_nat channel) (channel_data st);
        errors := errors st;
        trace := trace st ++ [EvTake (pdMS_TO_TICKS 100) true; EvGive;
                              EvSave channel] |}).
Proof.
  intros Hch Hw Hfree.
  unfold adc_set_hysteresis, chk_chn, xSemaphoreTake, save_channel_config, chk_chn.
  assert (Hlt : (channel <? ADC_MAX_CHANNELS) = true) by (apply Z.ltb_lt; lia).
  assert (H1 : (width =? 0) = false) by (apply Z.eqb_neq; lia).
  assert (H2 : (width >? 1000) = false) by (rewrite Z.gtb_ltb; apply Z.ltb_ge; lia).
  assert (H3 : (free_after <=? pdMS_TO_TICKS 100) = true) by (apply Z.leb_le; lia).
  rewrite Hlt, H1, H2, H3. simpl. unfold emit. simpl.
  rewrite <- !app_assoc. reflexivity.
Qed.

Lemma adc_get_calibration_ok channel free_after st c :
  0 <= channel < ADC_MAX_CHANNELS ->
  channel_data st !! Z.to_nat channel = Some c ->
  free_after <= pdMS_TO_TICKS 100 ->
  fst (adc_get_calibration channel Addr Addr free_after st)
  = (ESP_OK, Some (min_cal c, max_cal c)).
Proof.
  intros Hch Hc Hfree. unfold adc_get_calibration, chk_chn, xSemaphoreTake.
  assert (Hlt : (channel <? ADC_MAX_CHANNELS) = true) by (apply Z.ltb_lt; lia).
  assert (Hle : (free_after <=? pdMS_TO_TICKS 100) = true) by (apply Z.leb_le; lia).
  rewrite Hlt, Hle. simpl. unfold channel_at. rewrite Hc. reflexivity.
Qed.

Lemma adc_get_hysteresis_ok channel free_after st c :
  0 <= channel < ADC_MAX_CHANNELS ->
  channel_data st !! Z.to_nat channel = Some c ->
  free_after <= pdMS_TO_TICKS 100 ->
  fst (adc_get_hysteresis channel Addr free_after st)
  = (ESP_OK, Some (hysteresis (r_hyst c))).
Proof.
  intros Hch Hc Hfree. unfold adc_get_hysteresis, chk_chn, xSemaphoreTake.
  assert (Hlt : (channel <? ADC_MAX_CHANNELS) = true) by (apply Z.ltb_lt; lia).
  assert (Hle : (free_after <=? pdMS_TO_TICKS 100) = true) by (apply Z.leb_le; lia).
  rewrite Hlt, Hle. simpl. unfold channel_at. rewrite Hc.
  change (default zero_channel (Some c)) with c.
  destruct (r_hyst c). reflexivity.
Qed.

End Accessors.

(** X9. A call of [adc_set_calibration] that passes validation and obtains
    the mutex returns the status of the store, and has changed the memory
    whatever that status is: a following [adc_get_calibration] returns the
    new bounds. The raw value, the filtered value, the averaging buffer and
    the width of the channel, and the records of the other channels, are
    left as they were. *)
Theorem set_calibration_then_get `{cfg : Kconfig}
  (channel lo hi free1 free2 : Z) (nvs_res : esp_err_t) (st : adc_t)
  (c : adc_channel_data_t) :
  0 <= channel < ADC_MAX_CHANNELS -> lo < hi -> hi <= ADC_MAX ->
  free1 <= pdMS_TO_TICKS 100 -> free2 <= pdMS_TO_TICKS 100 ->
  channel_data st !! Z.to_nat channel = Some c ->
  let r := adc_set_calibration channel lo hi free1 nvs_res st in
  fst r = nvs_res /\
  fst (adc_get_calibration channel Addr Addr free2 (snd r))
    = (ESP_OK, Some (lo, hi)) /\
  (exists c',
     channel_data (snd r) !! Z.to_nat channel = Some c' /\
     raw_value c' = raw_value c /\
     normalized_value c' = normalized_value c /\
     r_avg c' = r_avg c /\
     hysteresis (r_hyst c') = hysteresis (r_hyst c)) /\
  (forall j : nat, j <> Z.to_nat channel ->
     channel_data (snd r) !! j = channel_data st !! j).
Proof.
  intros Hch Hlo Hhi Hf1 Hf2 Hc. cbv zeta.
  rewrite (adc_set_calibration_done channel lo hi free1 nvs_res st Hch Hlo Hhi Hf1).
  cbn [fst snd].
  set (f := fun c0 : adc_channel_data_t => _).
  match goal with
  | |- context [adc_get_calibration _ _ _ _ ?s] => set (st1 := s)
  end.
  assert (Hat : channel_data st1 !! Z.to_nat channel = Some (f c))
    by (unfold st1; simpl; rewrite list_lookup_alter_eq, Hc; reflexivity).
  split; [reflexivity | ]. split.
  - rewrite (adc_get_calibration_ok channel free2 st1 (f c) Hch Hat Hf2).
    reflexivity.
  - split.
    + exists (f c). split; [exact Hat | ]. unfold f. simpl. auto.
    + intros j Hj. unfold st1. simpl. apply list_lookup_alter_ne. congruence.
Qed.

Lemma set_calibration_then_get_unsaved :
  let r := adc_set_calibration 0 100 3900 0 ESP_ERR_TIMEOUT
             (task_adc [(ESP_OK, [sample 6 2000])] started) in
  fst r = ESP_ERR_TIMEOUT /\
  fst (adc_get_calibration 0 Addr Addr 0 (snd r)) = (ESP_OK, Some (100, 3900)) /\
  (exists c',
     channel_data (snd r) !! 0%nat = Some c' /\
     raw_value c' = 2000 /\ normalized_value c' = 200 /\
     r_avg c' = {| queue := 2000 :: replicate 9 0; ptr := 1 |} /\
     hysteresis (r_hyst c') = 40) /\
  (forall j : nat, j <> 0%nat ->
     channel_data (snd r) !! j
     = channel_data (task_adc [(ESP_OK, [sample 6 2000])] started) !! j).
Proof.
  apply (set_calibration_then_get (cfg := sdkconfig) 0 100 3900 0 0
           ESP_ERR_TIMEOUT (task_adc [(ESP_OK, [sample 6 2000])] started)
           {| raw_value := 2000; normalized_value := 200;
              r_hyst := {| min := 1980; max := 2020; hysteresis := 40 |};
              r_avg := {| queue := 2000 :: replicate 9 0; ptr := 1 |};
              min_cal := 0; max_cal := 4095 |});
    ground.
Defined.

(** X10. A call of [adc_set_hysteresis] that passes validation and obtains
    the mutex returns the status of the store and has changed the width in
    memory: a following [adc_get_hysteresis] returns it. The window is not
    moved or resized, and the calibration bounds are left as they were. *)
Theorem set_hysteresis_then_get `{cfg : Kconfig}
  (channel width free1 free2 : Z) (nvs_res : esp_err_t) (st : adc_t)
  (c : adc_channel_data_t) :
  0 <= channel < ADC_MAX_CHANNELS -> 1 <= width <= 1000 ->
  free1 <= pdMS_TO_TICKS 100 -> free2 <= pdMS_TO_TICKS 100 ->
  channel_data st !! Z.to_nat channel = Some c ->
  let r := adc_set_hysteresis channel width free1 nvs_res st in
  fst r = nvs_res /\
  fst (adc_get_hysteresis channel Addr free2 (snd r)) = (ESP_OK, Some width) /\
  exists c',
    channel_data (snd r) !! Z.to_nat channel = Some c' /\
    min (r_hyst c') = min (r_hyst c) /\ max (r_hyst c') = max (r_hyst c) /\
    min_cal c' = min_cal c /\ max_cal c' = max_cal c.
Proof.
  intros Hch Hw Hf1 Hf2 Hc. cbv zeta.
  rewrite (adc_set_hysteresis_done channel width free1 nvs_res st Hch Hw Hf1).
  cbn [fst snd].
  set (f := fun c0 : adc_channel_data_t => _).
  match goal with
  | |- context [adc_get_hysteresis _ _ _ ?s] => set (st1 := s)
  end.
  assert (Hat : channel_data st1 !! Z.to_nat channel = Some (f c))
    by (unfold st1; simpl; rewrite list_lookup_alter_eq, Hc; reflexivity).
  split; [reflexivity | ]. split.
  - rewrite (adc_get_hysteresis_ok channel free2 st1 (f c) Hch Hat Hf2).
    reflexivity.
  - exists (f c). split; [exact Hat | ]. unfold f. simpl. auto.
Qed.

Lemma set_hysteresis_then_get_300 :
  let r := adc_set_hysteresis 0 300 0 ESP_OK started in
  fst r = ESP_OK /\
  fst (adc_get_hysteresis 0 Addr 0 (snd r)) = (ESP_OK, Some 300) /\
  exists c',
    channel_data (snd r) !! 0%nat = Some c' /\
    min (r_hyst c') = 0 /\ max (r_hyst c') = 40 /\
    min_cal c' = 0 /\ max_cal c' = 4095.
Proof.
  apply (set_hysteresis_then_get (cfg := sdkconfig) 0 300 0 0 ESP_OK started
           (channel_with 0 40 40 0 4095 10));
    ground.
Defined.

(** X11. [adc_set_hysteresis] with a width of 0 or above 1000 returns
    [ESP_ERR_INVALID_ARG] and leaves the state unchanged, without an
    attempt on the mutex. *)
Theorem adc_set_hysteresis_rejects `{cfg : Kconfig}
  (channel width free_after : Z) (nvs_res : esp_err_t) (st : adc_t) :
  width = 0 \/ 1000 < width ->
  adc_set_hysteresis channel width free_after nvs_res st
  = (ESP_ERR_INVALID_ARG, st).
Proof.
  intros Hbad. unfold adc_set_hysteresis.
  assert (Hc : (width =? 0) || (width >? 1000) = true).
  { apply orb_true_iff. rewrite Z.eqb_eq, Z.gtb_ltb, Z.ltb_lt. lia. }
  rewrite <- orb_assoc, Hc, orb_true_r. reflexivity.
Qed.

Lemma adc_set_hysteresis_rejects_1001 :
  adc_set_hysteresis 0 1001 0 ESP_OK started = (ESP_ERR_INVALID_ARG, started).
Proof.
  apply (adc_set_hysteresis_rejects (cfg := sdkconfig) 0 1001 0 ESP_OK started).
  right. vm_compute. reflexivity.
Defined.

(** ** Readers and the mutex *)

Section Readers.
Context `{cfg : Kconfig}.

Lemma emit_take_give st wait :
  trace (xSemaphoreGive (emit st (EvTake wait true)))
  = trace st ++ [EvTake wait true; EvGive].
Proof. unfold xSemaphoreGive, emit. simpl. rewrite <- app_assoc. reflexivity. Qed.

Lemma adc_get_raw_lock_only channel v wait free_after st :
  lock_only st (snd (adc_get_raw channel v wait free_after st)).
Proof.
  unfold adc_get_raw, xSemaphoreTake, lock_only.
  destruct (negb (chk_chn channel) || is_null v); [simpl; auto | ].
  destruct (free_after <=? wait); simpl.
  - repeat split. right. exists wait. right. apply emit_take_give.
  - repeat split. right. exists wait. left. reflexivity.
Qed.

Lemma adc_get_normalized_lock_only channel v wait free_after st :
  lock_only st (snd (adc_get_normalized channel v wait free_after st)).
Proof.
  unfold adc_get_normalized, xSemaphoreTake, lock_only.
  destruct (negb (chk_chn channel) || is_null v); [simpl; auto | ].
  destruct (free_after <=? wait); simpl.
  - repeat split. right. exists wait. right. apply emit_take_give.
  - repeat split. right. exists wait. left. reflexivity.
Qed.

Lemma adc_get_calibration_lock_only channel v v' free_after st :
  lock_only st (snd (adc_get_calibration channel v v' free_after st)).
Proof.
  unfold adc_get_calibration, xSemaphoreTake, lock_only.
  destruct (negb (chk_chn channel) || is_null v || is_null v'); [simpl; auto | ].
  destruct (free_after <=? pdMS_TO_TICKS 100); simpl.
  - repeat split. right. exists (pdMS_TO_TICKS 100). right. apply emit_take_give.
  - repeat split. right. exists (pdMS_TO_TICKS 100). left. reflexivity.
Qed.

Lemma adc_get_hysteresis_lock_only channel v free_after st :
  lock_only st (snd (adc_get_hysteresis channel v free_after st)).
Proof.
  unfold adc_get_hysteresis, xSemaphoreTake, lock_only.
  destruct (negb (chk_chn channel) || is_null v); [simpl; auto | ].
  destruct (free_after <=? pdMS_TO_TICKS 100); simpl.
  - destruct (r_hyst _). simpl.
    repeat split. right. exists (pdMS_TO_TICKS 100). right. apply emit_take_give.
  - repeat split. right. exists (pdMS_TO_TICKS 100). left. reflexivity.
Qed.

Lemma lock_only_trans st1 st2 st3 :
  channel_data st2 = channel_data st1 /\ errors st2 = errors st1 ->
  lock_only st2 st3 ->
  channel_data st3 = channel_data st1 /\ errors st3 = errors st1.
Proof.
  intros [H1 H2] (H3 & H4 & _). split; congruence.
Qed.

Lemma adc_get_raw_ok channel wait free_after st c :
  0 <= channel < ADC_MAX_CHANNELS ->
  channel_data st !! Z.to_nat channel = Some c ->
  free_after <= wait ->
  fst (adc_get_raw channel Addr wait free_after st)
  = (ESP_OK, Some (raw_value c)).
Proof.
  intros Hch Hc Hfree. unfold adc_get_raw, chk_chn, xSemaphoreTake.
  assert (Hlt : (channel <? ADC_MAX_CHANNELS) = true) by (apply Z.ltb_lt; lia).
  assert (Hle : (free_after <=? wait) = true) by (apply Z.leb_le; lia).
  rewrite Hlt, Hle. simpl. unfold channel_at. rewrite Hc. reflexivity.
Qed.

End Readers.

(** X12. The four reading operations never change a channel record or a
    counter, whatever their arguments and their outcome: all they leave
    behind is at most one attempt on the mutex, released at once when it
    succeeded. *)
Theorem getters_read_only `{cfg : Kconfig}
  (channel : Z) (v v' : pointer) (wait free_after : Z) (st : adc_t) :
  lock_only st (snd (adc_get_raw channel v wait free_after st)) /\
  lock_only st (snd (adc_get_normalized channel v wait free_after st)) /\
  lock_only st (snd (adc_get_calibration channel v v' free_after st)) /\
  lock_only st (snd (adc_get_hysteresis channel v free_after st)).
Proof.
  split; [apply adc_get_raw_lock_only | ].
  split; [apply adc_get_normalized_lock_only | ].
  split; [apply adc_get_calibration_lock_only | ].
  apply adc_get_hysteresis_lock_only.
Qed.

(** X13. Without a new sample in between, reading again returns the same
    value: two calls in a row of [adc_get_raw], or of
    [adc_get_normalized], that both obtain the mutex return the same
    stored value. *)
Theorem repeated_read_same `{cfg : Kconfig}
  (channel wait1 wait2 free1 free2 : Z) (st : adc_t)
  (c : adc_channel_data_t) :
  0 <= channel < ADC_MAX_CHANNELS ->
  channel_data st !! Z.to_nat channel = Some c ->
  free1 <= wait1 -> free2 <= wait2 ->
  fst (adc_get_raw channel Addr wait2 free2
         (snd (adc_get_raw channel Addr wait1 free1 st)))
    = (ESP_OK, Some (raw_value c)) /\
  fst (adc_get_raw channel Addr wait1 free1 st)
    = (ESP_OK, Some (raw_value c)) /\
  fst (adc_get_normalized channel Addr wait2 free2
         (snd (adc_get_normalized channel Addr wait1 free1 st)))
    = (ESP_OK, Some (normalized_value c)) /\
  fst (adc_get_normalized channel Addr wait1 free1 st)
    = (ESP_OK, Some (normalized_value c)).
Proof.
  intros Hch Hc Hf1 Hf2.
  destruct (adc_get_raw_lock_only channel Addr wait1 free1 st) as (Hr & _ & _).
  destruct (adc_get_normalized_lock_only channel Addr wait1 free1 st)
    as (Hn & _ & _).
  repeat split.
  - apply adc_get_raw_ok; [exact Hch | rewrite Hr; exact Hc | exact Hf2].
  - apply adc_get_raw_ok; assumption.
  - apply adc_get_normalized_ok; [exact Hch | rewrite Hn; exact Hc | exact Hf2].
  - apply adc_get_normalized_ok; assumption.
Qed.

Lemma repeated_read_same_2000 :
  let st := task_adc [(ESP_OK, [sample 6 2000])] started in
  fst (adc_get_raw 0 Addr 5 3 (snd (adc_get_raw 0 Addr 0 0 st)))
    = (ESP_OK, Some 2000) /\
  fst (adc_get_raw 0 Addr 0 0 st) = (ESP_OK, Some 2000) /\
  fst (adc_get_normalized 0 Addr 5 3 (snd (adc_get_normalized 0 Addr 0 0 st)))
    = (ESP_OK, Some 200) /\
  fst (adc_get_normalized 0 Addr 0 0 st) = (ESP_OK, Some 200).
Proof.
  apply (repeated_read_same (cfg := sdkconfig) 0 0 5 0 3
           (task_adc [(ESP_OK, [sample 6 2000])] started)
           {| raw_value := 2000; normalized_value := 200;
              r_hyst := {| min := 1980; max := 2020; hysteresis := 40 |};
              r_avg := {| queue := 2000 :: replicate 9 0; ptr := 1 |};
              min_cal := 0; max_cal := 4095 |});
    ground.
Defined.

(** X14. A reading operation given a NULL output pointer returns
    [ESP_ERR_INVALID_ARG] and leaves the state unchanged, without an
    attempt on the mutex, also for a valid channel; for
    [adc_get_calibration] one NULL pointer of the two is enough. *)
Theorem null_pointer_rejected `{cfg : Kconfig}
  (channel : Z) (v : pointer) (wait free_after : Z) (st : adc_t) :
  adc_get_raw channel NULL wait free_after st
    = (ESP_ERR_INVALID_ARG, None, st) /\
  adc_get_normalized channel NULL wait free_after st
    = (ESP_ERR_INVALID_ARG, None, st) /\
  adc_get_calibration channel NULL v free_after st
    = (ESP_ERR_INVALID_ARG, None, st) /\
  adc_get_calibration channel v NULL free_after st
    = (ESP_ERR_INVALID_ARG, None, st) /\
  adc_get_hysteresis channel NULL free_after st
    = (ESP_ERR_INVALID_ARG, None, st).
Proof.
  unfold adc_get_raw, adc_get_normalized, adc_get_calibration,
         adc_get_hysteresis.
  simpl. rewrite !orb_true_r. repeat split; reflexivity.
Qed.

(** ** The discipline of the mutex *)

Section Mutex.
Context `{cfg : Kconfig}.

Lemma process_sample_trace p free_after st :
  trace (process_sample p free_after st)
  = trace st ++ sample_events (p, free_after).
Proof.
  unfold process_sample, sample_events. cbn [fst snd].
  destruct (find_channel _ _ _) as [ch | ]; [ | symmetry; apply app_nil_r].
  unfold xSemaphoreTake, critical_section.
  destruct (free_after <=? pdMS_TO_TICKS 10).
  - destruct (running_hyst ch (type1_data p) _) as [cd2 h].
    destruct (running_average ch h cd2) as [cd3 a].
    unfold xSemaphoreGive, emit, set_channel_data. simpl.
    rewrite <- app_assoc. reflexivity.
  - reflexivity.
Qed.

Lemma samples_trace (samples : list (adc_digi_output_data_t * Z)) st :
  trace (foldl (fun s ps => process_sample (fst ps) (snd ps) s) st samples)
  = trace st ++ flat_map sample_events samples.
Proof.
  revert st. induction samples as [ | ps samples IH]; intros st; simpl.
  - symmetry. apply app_nil_r.
  - rewrite IH, process_sample_trace, <- app_assoc.
    destruct ps as [p free_after]. reflexivity.
Qed.

Lemma task_adc_cycle_trace ret samples st :
  trace (task_adc_cycle ret samples st)
  = trace st ++ cycle_events (ret, samples).
Proof.
  unfold task_adc_cycle, cycle_events. cbn [fst snd].
  destruct (ret =? ESP_OK).
  - rewrite samples_trace. reflexivity.
  - destruct (ret =? ESP_ERR_TIMEOUT); symmetry; apply app_nil_r.
Qed.

Lemma task_adc_trace cycles st :
  trace (task_adc cycles st) = trace st ++ task_events cycles.
Proof.
  unfold task_adc, task_events. revert st.
  induction cycles as [ | cyc cycles IH]; intros st; simpl.
  - symmetry. apply app_nil_r.
  - rewrite IH, task_adc_cycle_trace, <- app_assoc.
    destruct cyc as [ret samples]. reflexivity.
Qed.

Lemma adc_get_raw_trace channel v wait free_after st :
  trace (snd (adc_get_raw channel v wait free_after st))
  = trace st
    ++ accessor_events (negb (chk_chn channel) || is_null v) free_after wait [].
Proof.
  unfold adc_get_raw, accessor_events, critical_section, xSemaphoreTake.
  destruct (negb (chk_chn channel) || is_null v);
    [symmetry; apply app_nil_r | ].
  destruct (free_after <=? wait); simpl.
  - apply emit_take_give.
  - reflexivity.
Qed.

Lemma adc_get_normalized_trace channel v wait free_after st :
  trace (snd (adc_get_normalized channel v wait free_after st))
  = trace st
    ++ accessor_events (negb (chk_chn channel) || is_null v) free_after wait [].
Proof.
  unfold adc_get_normalized, accessor_events, critical_section, xSemaphoreTake.
  destruct (negb (chk_chn channel) || is_null v);
    [symmetry; apply app_nil_r | ].
  destruct (free_after <=? wait); simpl.
  - apply emit_take_give.
  - reflexivity.
Qed.

Lemma adc_get_calibration_trace channel v v' free_after st :
  trace (snd (adc_get_calibration channel v v' free_after st))
  = trace st
    ++ accessor_events (negb (chk_chn channel) || is_null v || is_null v')
         free_after (pdMS_TO_TICKS 100) [].
Proof.
  unfold adc_get_calibration, accessor_events, critical_section, xSemaphoreTake.
  destruct (negb (chk_chn channel) || is_null v || is_null v');
    [symmetry; apply app_nil_r | ].
  destruct (free_after <=? pdMS_TO_TICKS 100); simpl.
  - apply emit_take_give.
  - reflexivity.
Qed.

Lemma adc_get_hysteresis_trace channel v free_after st :
  trace (snd (adc_get_hysteresis channel v free_after st))
  = trace st
    ++ accessor_events (negb (chk_chn channel) || is_null v)
         free_after (pdMS_TO_TICKS 100) [].
Proof.
  unfold adc_get_hysteresis, accessor_events, critical_section, xSemaphoreTake.
  destruct (negb (chk_chn channel) || is_null v);
    [symmetry; apply app_nil_r | ].
  destruct (free_after <=? pdMS_TO_TICKS 100); simpl.
  - destruct (r_hyst (channel_at (channel_data st) channel)).
    apply emit_take_give.
  - reflexivity.
Qed.

Lemma adc_set_calibration_trace channel lo hi free_after nvs_res st :
  trace (snd (adc_set_calibration channel lo hi free_after nvs_res st))
  = trace st
    ++ accessor_events (negb (chk_chn channel) || (lo >=? hi) || (hi >? ADC_MAX))
         free_after (pdMS_TO_TICKS 100) [EvSave channel].
Proof.
  unfold adc_set_calibration, accessor_events, critical_section, xSemaphoreTake.
  destruct (negb (chk_chn channel) || (lo >=? hi) || (hi >? ADC_MAX)) eqn:Hv;
    [symmetry; apply app_nil_r | ].
  destruct (free_after <=? pdMS_TO_TICKS 100); simpl.
  - unfold save_channel_config.
    assert (Hchk : negb (chk_chn channel) = false).
    { destruct (negb (chk_chn channel)); [discriminate Hv | reflexivity]. }
    rewrite Hchk. unfold xSemaphoreGive, emit, set_channel_data. simpl.
    rewrite <- !app_assoc. reflexivity.
  - reflexivity.
Qed.

Lemma adc_set_hysteresis_trace channel width free_after nvs_res st :
  trace (snd (adc_set_hysteresis channel width free_after nvs_res st))
  = trace st
    ++ accessor_events (negb (chk_chn channel) || (width =? 0) || (width >? 1000))
         free_after (pdMS_TO_TICKS 100) [EvSave channel].
Proof.
  unfold adc_set_hysteresis, accessor_events, critical_section, xSemaphoreTake.
  destruct (negb (chk_chn channel) || (width =? 0) || (width >? 1000)) eqn:Hv;
    [symmetry; apply app_nil_r | ].
  destruct (free_after <=? pdMS_TO_TICKS 100); simpl.
  - unfold save_channel_config.
    assert (Hchk : negb (chk_chn channel) = false).
    { destruct (negb (chk_chn channel)); [discriminate Hv | reflexivity]. }
    rewrite Hchk. unfold xSemaphoreGive, emit, set_channel_data. simpl.
    rewrite <- !app_assoc. reflexivity.
  - reflexivity.
Qed.

End Mutex.

(** The events of one run on the default configuration: the reading of
    input 6 takes and gives the mutex, the reading of input 7 finds it busy
    for 99 ticks and gives up after one tick; a setter takes, gives, then
    saves. *)
Example trace_after_start :
  trace (task_adc [(ESP_OK, [sample 6 2000;
                             ({| type1_data := 7; type1_channel := 7 |}, 99)])]
           started)
  = [EvTake 1 true; EvGive; EvTake 1 false] /\
  trace (snd (adc_set_calibration 0 100 3900 0 ESP_OK started))
  = [EvTake 10 true; EvGive; EvSave 0] /\
  trace (snd (adc_set_hysteresis 0 50 11 ESP_OK started))
  = [EvTake 10 false].
Proof. repeat split; reflexivity. Qed.

(** X15. Every operation of the driver releases the mutex it took before
    it does anything else with it, and saves to the store only with the
    mutex released. A run of the task appends to the trace, for every
    conversion result of a read that returned ESP_OK and that the scan
    matches to a channel, one attempt on the mutex with a budget of 10 ms,
    followed at once by its release when it succeeded, and nothing else. A
    reading operation appends nothing when it rejects its arguments, and
    otherwise one attempt (with the caller's budget for [adc_get_raw] and
    [adc_get_normalized], with 100 ms for [adc_get_calibration] and
    [adc_get_hysteresis]) followed at once by its release when it succeeded.
    A setter appends nothing when it rejects its arguments, the failed
    attempt alone when the mutex stays busy for more than 100 ms, and
    otherwise exactly the take, the give and the save of its channel, in
    that order. *)
Theorem mutex_always_released `{cfg : Kconfig}
  (cycles : list (esp_err_t * list (adc_digi_output_data_t * Z)))
  (channel : Z) (v v' : pointer) (wait free_after lo hi width : Z)
  (nvs_res : esp_err_t) (st : adc_t) :
  trace (task_adc cycles st) = trace st ++ task_events cycles /\
  trace (snd (adc_get_raw channel v wait free_after st))
  = trace st ++ (if negb (chk_chn channel) || is_null v then []
                 else if free_after <=? wait
                      then [EvTake wait true; EvGive]
                      else [EvTake wait false]) /\
  trace (snd (adc_get_normalized channel v wait free_after st))
  = trace st ++ (if negb (chk_chn channel) || is_null v then []
                 else if free_after <=? wait
                      then [EvTake wait true; EvGive]
                      else [EvTake wait false]) /\
  trace (snd (adc_get_calibration channel v v' free_after st))
  = trace st ++ (if negb (chk_chn channel) || is_null v || is_null v' then []
                 else if free_after <=? pdMS_TO_TICKS 100
                      then [EvTake (pdMS_TO_TICKS 100) true; EvGive]
                      else [EvTake (pdMS_TO_TICKS 100) false]) /\
  trace (snd (adc_get_hysteresis channel v free_after st))
  = trace st ++ (if negb (chk_chn channel) || is_null v then []
                 else if free_after <=? pdMS_TO_TICKS 100
                      then [EvTake (pdMS_TO_TICKS 100) true; EvGive]
                      else [EvTake (pdMS_TO_TICKS 100) false]) /\
  trace (snd (adc_set_calibration channel lo hi free_after nvs_res st))
  = trace st ++ (if negb (chk_chn channel) || (lo >=? hi) || (hi >? ADC_MAX)
                 then []
                 else if free_after <=? pdMS_TO_TICKS 100
                      then [EvTake (pdMS_TO_TICKS 100) true; EvGive;
                            EvSave channel]
                      else [EvTake (pdMS_TO_TICKS 100) false]) /\
  trace (snd (adc_set_hysteresis channel width free_after nvs_res st))
  = trace st ++ (if negb (chk_chn channel) || (width =? 0) || (width >? 1000)
                 then []
                 else if free_after <=? pdMS_TO_TICKS 100
                      then [EvTake (pdMS_TO_TICKS 100) true; EvGive;
                            EvSave channel]
                      else [EvTake (pdMS_TO_TICKS 100) false]).
Proof.
  split; [apply task_adc_trace | ].
  split; [apply adc_get_raw_trace | ].
  split; [apply adc_get_normalized_trace | ].
  split; [apply adc_get_calibration_trace | ].
  split; [apply adc_get_hysteresis_trace | ].
  split; [apply adc_set_calibration_trace | apply adc_set_hysteresis_trace].
Qed.

(** ** How far the hysteresis stage moves a reading *)

Section Accuracy.
Context `{cfg : Kconfig}.

Lemma running_hyst_at_outside h lo hi x :
  x < min h \/ max h < x -> snd (running_hyst_at h lo hi x) = x.
Proof.
  intros Hout. unfold running_hyst_at.
  assert (Hb : (x <=? max h) && (x >=? min h) = false).
  { apply andb_false_iff. rewrite Z.geb_leb, !Z.leb_gt. lia. }
  rewrite Hb. destruct (x >? max h); reflexivity.
Qed.

Lemma running_hyst_at_near h lo hi x :
  0 <= lo < hi -> hi <= ADC_MAX -> 1 <= hysteresis h <= 1000 ->
  window_placed h lo hi \/ window_borrowed h lo hi ->
  lo <= x <= hi ->
  x - (hysteresis h - hysteresis h / 2)
    <= snd (running_hyst_at h lo hi x) <= x + hysteresis h / 2.
Proof.
  intros Hcal Hmax Hw Hwin Hx. rewrite ADC_MAX_value in Hmax.
  assert (Hhalf : 0 <= hysteresis h / 2 <= hysteresis h)
    by (Z.to_euclidean_division_equations; lia).
  destruct (Z_lt_le_dec x (min h)) as [Hlow | Hge].
  { rewrite running_hyst_at_outside by lia. lia. }
  destruct (Z_lt_le_dec (max h) x) as [Hhigh | Hle].
  { rewrite running_hyst_at_outside by lia. lia. }
  destruct Hwin as [(Hmin & Hmaxeq & _) | (_ & Hmin & _)]; [ | lia].
  assert (Hminu : is_u32 (min h)) by (unfold is_u32; rewrite pow2_32; lia).
  assert (Hmaxu : is_u32 (max h)) by (unfold is_u32; rewrite pow2_32; lia).
  rewrite running_hyst_at_hold by (assumption || lia). simpl.
  assert (Hspan : 0 <= max h - min h <= hysteresis h) by lia.
  Z.to_euclidean_division_equations. lia.
Qed.

Lemma running_hyst_at_straddles h lo hi x :
  hyst_u32 h -> hysteresis h <= 1000 ->
  0 <= lo -> hi <= ADC_MAX -> lo <= x <= hi ->
  max h < x \/ (x < min h /\ hysteresis h / 2 <= x /\ x <= max h) ->
  let h' := fst (running_hyst_at h lo hi x) in
  min h' <= x <= max h' /\ is_u32 (min h') /\ is_u32 (max h') /\
  snd (running_hyst_at h lo hi x) = x.
Proof.
  intros (Hminu & Hmaxu & Hwu) Hw Hlo Hhi Hx Hout. cbv zeta.
  rewrite ADC_MAX_value in Hhi.
  assert (Hlou : is_u32 lo) by (unfold is_u32; rewrite pow2_32; lia).
  assert (Hhiu : is_u32 hi) by (unfold is_u32; rewrite pow2_32; lia).
  assert (Hhalf : 0 <= hysteresis h / 2 <= hysteresis h)
    by (unfold is_u32 in Hwu; Z.to_euclidean_division_equations; lia).
  unfold is_u32 in *. rewrite pow2_32 in *.
  destruct Hout as [Hup | (Hdown & Hplain & Hmax)].
  - rewrite running_hyst_at_up
      by (unfold is_u32; rewrite ?pow2_32; try assumption; lia).
    cbv zeta. simpl.
    destruct (Z.gtb_spec (Z.min (x + hysteresis h / 2) hi) (hysteresis h)); lia.
  - rewrite running_hyst_at_down
      by (unfold is_u32; rewrite ?pow2_32; try assumption; lia).
    cbv zeta. simpl. lia.
Qed.

End Accuracy.



(** X17. When a reading inside the calibration range falls outside the
    window and the downward subtraction does not borrow (the reading is
    above the window, or at least half the width), [running_hyst] returns
    it unmodified and moves the window so that it contains the reading:
    the same reading again is answered by the midpoint of the new
    window. *)
Theorem slide_then_hold `{cfg : Kconfig}
  (channel x : Z) (cd : list adc_channel_data_t) (c : adc_channel_data_t) :
  0 <= channel < ADC_MAX_CHANNELS ->
  cd !! Z.to_nat channel = Some c ->
  hyst_u32 (r_hyst c) -> hysteresis (r_hyst c) <= 1000 ->
  0 <= min_cal c -> max_cal c <= ADC_MAX ->
  within_cal c x ->
  max (r_hyst c) < x \/
  (x < min (r_hyst c) /\ hysteresis (r_hyst c) / 2 <= x /\ x <= max (r_hyst c)) ->
  let r := running_hyst channel x cd in
  snd r = x /\
  exists c',
    fst r !! Z.to_nat channel = Some c' /\
    min (r_hyst c') <= x <= max (r_hyst c') /\
    snd (running_hyst channel x (fst r))
      = min (r_hyst c') + (max (r_hyst c') - min (r_hyst c')) / 2.
Proof.
  intros Hch Hc Hu Hw Hlo Hhi Hx Hout. cbv zeta.
  rewrite (running_hyst_valid channel x cd c Hch Hc). cbn [fst snd].
  destruct (running_hyst_at_straddles (r_hyst c) (min_cal c) (max_cal c) x
              Hu Hw Hlo Hhi Hx Hout) as (Hin & Hminu & Hmaxu & Hsame).
  split; [exact Hsame | ].
  set (h' := fst (running_hyst_at (r_hyst c) (min_cal c) (max_cal c) x)) in *.
  exists (set_r_hyst c h').
  assert (Hat : <[Z.to_nat channel := set_r_hyst c h']> cd !! Z.to_nat channel
                = Some (set_r_hyst c h'))
    by (apply list_lookup_insert_eq; apply lookup_lt_is_Some; eauto).
  split; [exact Hat | ]. split; [exact Hin | ].
  rewrite (running_hyst_valid channel x _ (set_r_hyst c h') Hch Hat).
  cbn [snd]. unfold set_r_hyst at 1 2 3. cbn [r_hyst min_cal max_cal].
  rewrite (running_hyst_at_hold h' _ _ x Hminu Hmaxu Hin). reflexivity.
Qed.

Lemma slide_then_hold_3000 :
  let r := running_hyst 0 3000 [channel_with 1980 2020 40 0 4095 10] in
  snd r = 3000 /\
  exists c',
    fst r !! 0%nat = Some c' /\
    min (r_hyst c') <= 3000 <= max (r_hyst c') /\
    snd (running_hyst 0 3000 (fst r))
      = min (r_hyst c') + (max (r_hyst c') - min (r_hyst c')) / 2.
Proof.
  apply (slide_then_hold (cfg := sdkconfig) 0 3000
           [channel_with 1980 2020 40 0 4095 10]
           (channel_with 1980 2020 40 0 4095 10)).
  - vm_compute. intuition congruence.
  - reflexivity.
  - ground.
  - vm_compute. congruence.
  - vm_compute. congruence.
  - vm_compute. congruence.
  - vm_compute. intuition congruence.
  - left. vm_compute. reflexivity.
Defined.

(** ** The command line *)

Section CommandLine.
Context `{cfg : Kconfig}.

Lemma print_channel_status_quiet env channel st :
  channel_data (snd (print_channel_status env channel st)) = channel_data st /\
  errors (snd (print_channel_status env channel st)) = errors st.
Proof.
  unfold print_channel_status.
  destruct (negb (chk_chn channel)); [simpl; auto | ].
  pose proof (adc_get_raw_lock_only channel Addr (pdMS_TO_TICKS 100)
                (free_now env st) st) as L1.
  destruct (adc_get_raw channel Addr (pdMS_TO_TICKS 100) (free_now env st) st)
    as [[e1 raw] st1].
  simpl in L1. destruct L1 as (D1 & E1 & _).
  destruct (negb (e1 =? ESP_OK)); [simpl; auto | ].
  pose proof (adc_get_normalized_lock_only channel Addr (pdMS_TO_TICKS 100)
                (free_now env st1) st1) as L2.
  destruct (adc_get_normalized channel Addr (pdMS_TO_TICKS 100)
              (free_now env st1) st1) as [[e2 norm] st2].
  simpl in L2. destruct L2 as (D2 & E2 & _).
  destruct (negb (e2 =? ESP_OK)); [simpl; split; congruence | ].
  pose proof (adc_get_calibration_lock_only channel Addr Addr
                (free_now env st2) st2) as L3.
  destruct (adc_get_calibration channel Addr Addr (free_now env st2) st2)
    as [[e3 cal] st3].
  simpl in L3. destruct L3 as (D3 & E3 & _).
  destruct (negb (e3 =? ESP_OK)); [simpl; split; congruence | ].
  pose proof (adc_get_hysteresis_lock_only channel Addr
                (free_now env st3) st3) as L4.
  destruct (adc_get_hysteresis channel Addr (free_now env st3) st3)
    as [[e4 hyst] st4].
  simpl in L4. destruct L4 as (D4 & E4 & _).
  destruct (negb (e4 =? ESP_OK)); simpl; split; congruence.
Qed.

Lemma status_loop_quiet env (chs : list nat) :
  forall (out : list message) st,
    let r := foldl (fun acc ch =>
                      let '(out1, st1) :=
                        print_channel_status env (Z.of_nat ch) (snd acc) in
                      (fst acc ++ out1, st1)) (out, st) chs in
    channel_data (snd r) = channel_data st /\ errors (snd r) = errors st.
Proof.
  induction chs as [ | ch chs IH]; intros out st; cbv zeta; cbn [foldl].
  - simpl. auto.
  - pose proof (print_channel_status_quiet env (Z.of_nat ch) st) as [D E].
    cbn [snd fst].
    destruct (print_channel_status env (Z.of_nat ch) st) as [out1 st1].
    simpl in D, E.
    specialize (IH (out ++ out1) st1). cbv zeta in IH.
    destruct IH as [D' E']. split; congruence.
Qed.

(** The validation of [adc_set_calibration], on its own. *)
Lemma adc_set_calibration_invalid channel lo hi free_after nvs_res st :
  hi <= lo \/ ADC_MAX < hi ->
  adc_set_calibration channel lo hi free_after nvs_res st
  = (ESP_ERR_INVALID_ARG, st).
Proof.
  intros Hbad. unfold adc_set_calibration.
  assert (Hc : (lo >=? hi) || (hi >? ADC_MAX) = true).
  { apply orb_true_iff. rewrite Z.geb_leb, Z.gtb_ltb, Z.leb_le, Z.ltb_lt. lia. }
  rewrite <- orb_assoc, Hc, orb_true_r. reflexivity.
Qed.

Lemma u32_of_int z :
  - 2 ^ 31 <= z < 2 ^ 31 ->
  (0 <= z -> u32 z = z) /\ (z < 0 -> u32 z = z + 2 ^ 32).
Proof.
  intros Hz. assert (H31 : 2 ^ 31 = 2147483648) by reflexivity.
  split; intros Hs.
  - apply u32_small. unfold is_u32. rewrite pow2_32. lia.
  - replace z with (0 - (- z)) by ring.
    rewrite u32_borrow by (rewrite ?pow2_32; lia). ring.
Qed.

End CommandLine.

(** X18. The command changes no channel record and no counter unless it is
    a calibration with a channel and with either both bounds or a width:
    help, a parse error, the status and error reports, a calibration
    without channel, and a calibration given only one bound and no width
    leave them as they were. *)
Theorem cmd_adc_read_only `{cfg : Kconfig}
  (env : env_t) (nerrors : Z) (args : args_t) (st : adc_t) :
  nerrors <> 0 \/ 0 < args_help args \/ 0 < args_status args \/
  0 < args_errors_flag args \/ args_calibrate args <= 0 \/
  args_channel args = None \/
  ((args_min args = None \/ args_max args = None) /\ args_hyst args = None) ->
  channel_data (snd (cmd_adc env nerrors args st)) = channel_data st /\
  errors (snd (cmd_adc env nerrors args st)) = errors st.
Proof.
  intros Hcase. unfold cmd_adc.
  destruct (negb (nerrors =? 0) || (args_help args >? 0)) eqn:H0;
    [simpl; auto | ].
  apply orb_false_iff in H0. destruct H0 as [Hn Hh].
  apply negb_false_iff, Z.eqb_eq in Hn.
  rewrite Z.gtb_ltb in Hh. apply Z.ltb_ge in Hh.
  destruct (args_status args >? 0) eqn:Hs.
  { destruct (args_channel args) as [c | ].
    - pose proof (print_channel_status_quiet env (u8 c) st) as Hq.
      destruct (print_channel_status env (u8 c) st) as [out st1]. exact Hq.
    - pose proof (status_loop_quiet env (seq 0 (Z.to_nat ADC_MAX_CHANNELS))
                    [] st) as Hq.
      cbv zeta in Hq.
      destruct (foldl _ _ _) as [out st1]. exact Hq. }
  rewrite Z.gtb_ltb in Hs. apply Z.ltb_ge in Hs.
  destruct (args_errors_flag args >? 0) eqn:He; [simpl; auto | ].
  rewrite Z.gtb_ltb in He. apply Z.ltb_ge in He.
  destruct (args_calibrate args >? 0) eqn:Hc; [ | simpl; auto].
  rewrite Z.gtb_ltb in Hc. apply Z.ltb_lt in Hc.
  destruct (args_channel args) as [c | ] eqn:Hch; [ | simpl; auto].
  assert (Hrest : (args_min args = None \/ args_max args = None) /\
                  args_hyst args = None).
  { destruct Hcase as [H | [H | [H | [H | [H | [H | H]]]]]];
      try lia; try discriminate; exact H. }
  destruct Hrest as [Hmm Hhy]. rewrite Hhy.
  destruct Hmm as [Hm | Hm]; rewrite Hm.
  - simpl. auto.
  - destruct (args_min args); simpl; auto.
Qed.

Lemma cmd_adc_read_only_status :
  let args := {| args_help := 0; args_channel := None; args_min := Some 100;
                 args_max := Some 3900; args_hyst := Some 50;
                 args_status := 1; args_calibrate := 1;
                 args_errors_flag := 0 |} in
  let env := {| lock_free_after := fun _ => 0;
                nvs_status := fun _ => ESP_OK |} in
  channel_data (snd (cmd_adc env 0 args started)) = channel_data started /\
  errors (snd (cmd_adc env 0 args started)) = errors started.
Proof.
  apply (cmd_adc_read_only (cfg := sdkconfig)).
  right. right. left. vm_compute. reflexivity.
Defined.

(** X19. The command narrows the channel number to 8 bits before it is
    checked: a channel number and the same number plus a multiple of 256
    give the same messages, the same return code and the same state. *)
Theorem cmd_adc_channel_narrowed `{cfg : Kconfig}
  (env : env_t) (nerrors : Z) (st : adc_t)
  (help status calibrate errors_flag c k : Z) (lo hi hyst : option Z) :
  cmd_adc env nerrors
    {| args_help := help; args_channel := Some (c + 256 * k);
       args_min := lo; args_max := hi; args_hyst := hyst;
       args_status := status; args_calibrate := calibrate;
       args_errors_flag := errors_flag |} st
  = cmd_adc env nerrors
      {| args_help := help; args_channel := Some c;
         args_min := lo; args_max := hi; args_hyst := hyst;
         args_status := status; args_calibrate := calibrate;
         args_errors_flag := errors_flag |} st.
Proof.
  unfold cmd_adc. simpl.
  assert (E : u8 (c + 256 * k) = u8 c).
  { unfold u8. change (2 ^ 8) with 256.
    rewrite (Z.mul_comm 256 k). apply Z_mod_plus_full. }
  rewrite E. reflexivity.
Qed.

(** X20. A calibration command whose bounds are negative, out of order or
    above 4096 is refused before any attempt on the mutex: the only
    message is the failure with [ESP_ERR_INVALID_ARG], the return code is
    1, the state is unchanged, and a width given on the same command line
    is not applied. *)
Theorem cmd_adc_bad_bounds `{cfg : Kconfig}
  (env : env_t) (st : adc_t) (c lo hi : Z) (hyst : option Z) :
  - 2 ^ 31 <= lo < 2 ^ 31 -> - 2 ^ 31 <= hi < 2 ^ 31 ->
  lo < 0 \/ hi < 0 \/ hi <= lo \/ 4096 < hi ->
  cmd_adc env 0
    {| args_help := 0; args_channel := Some c;
       args_min := Some lo; args_max := Some hi; args_hyst := hyst;
       args_status := 0; args_calibrate := 1; args_errors_flag := 0 |} st
  = ([MsgCalibrationFailed ESP_ERR_INVALID_ARG], 1, st).
Proof.
  intros Hlo Hhi Hbad. unfold cmd_adc. simpl.
  destruct (u32_of_int lo Hlo) as [Hlp Hln].
  destruct (u32_of_int hi Hhi) as [Hhp Hhn].
  assert (H31 : 2 ^ 31 = 2147483648) by reflexivity.
  rewrite adc_set_calibration_invalid.
  - reflexivity.
  - rewrite ADC_MAX_value. rewrite pow2_32 in *.
    destruct (Z_lt_le_dec hi 0) as [Hh | Hh].
    + right. rewrite Hhn by lia. lia.
    + rewrite Hhp by lia.
      destruct (Z_lt_le_dec lo 0) as [Hl | Hl].
      * destruct (Z_lt_le_dec 4096 hi); [right; lia | left].
        rewrite Hln by lia. lia.
      * rewrite Hlp by lia. lia.
Qed.

Lemma cmd_adc_bad_bounds_negative :
  cmd_adc {| lock_free_after := fun _ => 0; nvs_status := fun _ => ESP_OK |} 0
    {| args_help := 0; args_channel := Some 0;
       args_min := Some (-1); args_max := Some 3900; args_hyst := Some 50;
       args_status := 0; args_calibrate := 1; args_errors_flag := 0 |} started
  = ([MsgCalibrationFailed ESP_ERR_INVALID_ARG], 1, started).
Proof.
  apply (cmd_adc_bad_bounds (cfg := sdkconfig)).
  - vm_compute. intuition congruence.
  - vm_compute. intuition congruence.
  - left. vm_compute. reflexivity.
Defined.

Section CommandLineReports.
Context `{cfg : Kconfig}.

Lemma print_channel_status_report env channel st c :
  0 <= channel < ADC_MAX_CHANNELS ->
  channel_data st !! Z.to_nat channel = Some c ->
  (forall n, lock_free_after env n <= pdMS_TO_TICKS 100) ->
  fst (print_channel_status env channel st)
  = [MsgChannel channel (raw_value c) (normalized_value c)
       (min_cal c) (max_cal c) (hysteresis (r_hyst c))].
Proof.
  intros Hch Hc Hfree. unfold print_channel_status, chk_chn.
  assert (Hlt : (channel <? ADC_MAX_CHANNELS) = true) by (apply Z.ltb_lt; lia).
  rewrite Hlt. cbn [negb].
  pose proof (adc_get_raw_ok channel (pdMS_TO_TICKS 100) (free_now env st) st c
                Hch Hc (Hfree _)) as R1.
  pose proof (adc_get_raw_lock_only channel Addr (pdMS_TO_TICKS 100)
                (free_now env st) st) as L1.
  destruct (adc_get_raw channel Addr (pdMS_TO_TICKS 100) (free_now env st) st)
    as [[e1 raw] st1].
  simpl in R1, L1. inversion R1; subst e1 raw. destruct L1 as (D1 & _).
  rewrite <- D1 in Hc. cbn [Z.eqb ESP_OK negb].
  pose proof (adc_get_normalized_ok channel (pdMS_TO_TICKS 100)
                (free_now env st1) st1 c Hch Hc (Hfree _)) as R2.
  pose proof (adc_get_normalized_lock_only channel Addr (pdMS_TO_TICKS 100)
                (free_now env st1) st1) as L2.
  destruct (adc_get_normalized channel Addr (pdMS_TO_TICKS 100)
              (free_now env st1) st1) as [[e2 norm] st2].
  simpl in R2, L2. inversion R2; subst e2 norm. destruct L2 as (D2 & _).
  rewrite <- D2 in Hc. cbn [Z.eqb ESP_OK negb].
  pose proof (adc_get_calibration_ok channel (free_now env st2) st2 c
                Hch Hc (Hfree _)) as R3.
  pose proof (adc_get_calibration_lock_only channel Addr Addr
                (free_now env st2) st2) as L3.
  destruct (adc_get_calibration channel Addr Addr (free_now env st2) st2)
    as [[e3 cal] st3].
  simpl in R3, L3. inversion R3; subst e3 cal. destruct L3 as (D3 & _).
  rewrite <- D3 in Hc. cbn [Z.eqb ESP_OK negb].
  pose proof (adc_get_hysteresis_ok channel (free_now env st3) st3 c
                Hch Hc (Hfree _)) as R4.
  destruct (adc_get_hysteresis channel Addr (free_now env st3) st3)
    as [[e4 hyst] st4].
  simpl in R4. inversion R4; subst e4 hyst. reflexivity.
Qed.

End CommandLineReports.

(** X21. With the mutex free within 100 ms at every attempt, the status
    command for a channel whose number, narrowed to 8 bits, is configured
    prints one report with the stored raw value, filtered value,
    calibration bounds and width of that channel, and returns 0. *)
Theorem cmd_adc_status_report `{cfg : Kconfig}
  (env : env_t) (st : adc_t) (ch : Z) (c : adc_channel_data_t)
  (lo hi hyst : option Z) (calibrate errors_flag : Z) :
  0 <= u8 ch < ADC_MAX_CHANNELS ->
  channel_data st !! Z.to_nat (u8 ch) = Some c ->
  (forall n, lock_free_after env n <= pdMS_TO_TICKS 100) ->
  fst (cmd_adc env 0
         {| args_help := 0; args_channel := Some ch;
            args_min := lo; args_max := hi; args_hyst := hyst;
            args_status := 1; args_calibrate := calibrate;
            args_errors_flag := errors_flag |} st)
  = ([MsgChannel (u8 ch) (raw_value c) (normalized_value c)
        (min_cal c) (max_cal c) (hysteresis (r_hyst c))], 0).
Proof.
  intros Hch Hc Hfree. unfold cmd_adc. simpl.
  pose proof (print_channel_status_report env (u8 ch) st c Hch Hc Hfree) as Hr.
  destruct (print_channel_status env (u8 ch) st) as [out st1].
  simpl in Hr. rewrite Hr. reflexivity.
Qed.

Lemma cmd_adc_status_report_after_2000 :
  fst (cmd_adc {| lock_free_after := fun _ => 0;
                  nvs_status := fun _ => ESP_OK |} 0
         {| args_help := 0; args_channel := Some 256;
            args_min := None; args_max := None; args_hyst := None;
            args_status := 1; args_calibrate := 0; args_errors_flag := 0 |}
         (task_adc [(ESP_OK, [sample 6 2000])] started))
  = ([MsgChannel 0 2000 200 0 4095 40], 0).
Proof.
  apply (cmd_adc_status_report (cfg := sdkconfig)
           {| lock_free_after := fun _ => 0; nvs_status := fun _ => ESP_OK |}
           (task_adc [(ESP_OK, [sample 6 2000])] started) 256
           {| raw_value := 2000; normalized_value := 200;
              r_hyst := {| min := 1980; max := 2020; hysteresis := 40 |};
              r_avg := {| queue := 2000 :: replicate 9 0; ptr := 1 |};
              min_cal := 0; max_cal := 4095 |}).
  - vm_compute. intuition congruence.
  - reflexivity.
  - intros n. vm_compute. congruence.
Defined.

(** X22. A calibration command with valid bounds and a valid width, with
    the mutex free and the store accepting the saves, reports both settings
    and returns 0. The channel then has the new bounds and the new width,
    but its window was placed with the width it had before:
    [lo, min(lo + old width, hi)]. *)
Theorem cmd_adc_calibrate_both `{cfg : Kconfig}
  (env : env_t) (st : adc_t) (ch lo hi width : Z) (c : adc_channel_data_t) :
  0 <= u8 ch < ADC_MAX_CHANNELS ->
  channel_data st !! Z.to_nat (u8 ch) = Some c ->
  0 <= lo < hi -> hi <= 4096 -> 1 <= width <= 1000 ->
  0 <= hysteresis (r_hyst c) <= 1000 ->
  (forall n, lock_free_after env n <= pdMS_TO_TICKS 100) ->
  (forall n, nvs_status env n = ESP_OK) ->
  let r := cmd_adc env 0
             {| args_help := 0; args_channel := Some ch;
                args_min := Some lo; args_max := Some hi;
                args_hyst := Some width;
                args_status := 0; args_calibrate := 1;
                args_errors_flag := 0 |} st in
  fst r = ([MsgCalibrationSet (u8 ch) lo hi; MsgHysteresisSet (u8 ch) width], 0) /\
  exists c',
    channel_data (snd r) !! Z.to_nat (u8 ch) = Some c' /\
    min_cal c' = lo /\ max_cal c' = hi /\
    hysteresis (r_hyst c') = width /\
    min (r_hyst c') = lo /\
    max (r_hyst c') = Z.min (lo + hysteresis (r_hyst c)) hi.
Proof.
  intros Hch Hc Hlo Hhi Hw Hold Hfree Hnvs. cbv zeta.
  unfold cmd_adc. simpl.
  assert (Elo : u32 lo = lo) by (apply u32_small; unfold is_u32; rewrite pow2_32; lia).
  assert (Ehi : u32 hi = hi) by (apply u32_small; unfold is_u32; rewrite pow2_32; lia).
  assert (Ew : u32 width = width)
    by (apply u32_small; unfold is_u32; rewrite pow2_32; lia).
  rewrite Elo, Ehi, Ew.
  rewrite adc_set_calibration_done
    by (try assumption; try apply Hfree; rewrite ?ADC_MAX_value; lia).
  unfold nvs_now. rewrite !Hnvs. cbn [Z.eqb ESP_OK].
  rewrite adc_set_hysteresis_done by (try assumption; try apply Hfree; lia).
  rewrite !Hnvs. cbn [Z.eqb ESP_OK].
  split; [reflexivity | ].
  cbn [snd channel_data].
  rewrite !list_lookup_alter_eq, Hc. simpl.
  eexists. split; [reflexivity | ]. simpl.
  rewrite u32_small by (unfold is_u32; rewrite pow2_32; lia).
  rewrite MIN_min. repeat split; reflexivity.
Qed.

Lemma cmd_adc_calibrate_both_200 :
  let r := cmd_adc {| lock_free_after := fun _ => 0;
                      nvs_status := fun _ => ESP_OK |} 0
             {| args_help := 0; args_channel := Some 0;
                args_min := Some 100; args_max := Some 3900;
                args_hyst := Some 200;
                args_status := 0; args_calibrate := 1;
                args_errors_flag := 0 |} started in
  fst r = ([MsgCalibrationSet 0 100 3900; MsgHysteresisSet 0 200], 0) /\
  exists c',
    channel_data (snd r) !! 0%nat = Some c' /\
    min_cal c' = 100 /\ max_cal c' = 3900 /\
    hysteresis (r_hyst c') = 200 /\
    min (r_hyst c') = 100 /\ max (r_hyst c') = 140.
Proof.
  apply (cmd_adc_calibrate_both (cfg := sdkconfig)
           {| lock_free_after := fun _ => 0; nvs_status := fun _ => ESP_OK |}
           started 0 100 3900 200 (channel_with 0 40 40 0 4095 10)).
  - vm_compute. intuition congruence.
  - reflexivity.
  - vm_compute. intuition congruence.
  - vm_compute. congruence.
  - vm_compute. intuition congruence.
  - vm_compute. intuition congruence.
  - intros n. vm_compute. congruence.
  - intros n. reflexivity.
Defined.
